(** * taskiq worker: parameter coercion, task execution, shutdown, listen loop

    A shallow embedding of [taskiq/cli/async_task_runner.py].

  Python objects that the worker mutates in place (the message's
  [args] list and [kwargs] dict) are threaded explicitly: a function
  that mutates its argument returns the object as it stands when the
  function returns or raises.  Collaborators that live outside the
  module (pydantic's [parse_obj_as], the broker's formatter, the
  middlewares, the result backend) are taken as functions whose result
  is either a value or a raised [Exception]; a task function may also
  raise a [BaseException] that is no [Exception], or never complete. *)

From Stdlib Require Import ZArith String Ascii List Lia PrimFloat.
From stdpp Require Import base option list relations gmap strings fin_maps.

Local Open Scope string_scope.
Local Open Scope list_scope.
Local Open Scope Z_scope.

(** ** Python values and exceptions *)

Module Py.

(** Payload values as a loosely typed transport (JSON) delivers them. *)
Inductive value : Type :=
| VNone
| VBool (b : bool)
| VInt (z : Z)
| VStr (s : string).

#[global] Instance value_eq_dec : EqDecision value.
Proof. solve_decision. Defined.

(** Exception classes.  Every class here derives from [Exception], so
    a clause [except Exception] handles every [exc]; the classes that
    derive from [BaseException] only are in [interrupt] below. *)
Inductive exc_class : Type :=
| ValueError
| ValidationError      (* pydantic.ValidationError, a ValueError *)
| RuntimeError
| NotImplementedError  (* a RuntimeError *)
| TypeError
| KeyError
| IndexError
| StopIteration
| OtherError (name : string).

Record exc : Type := Exc { exc_cls : exc_class; exc_msg : string }.

#[global] Instance exc_class_eq_dec : EqDecision exc_class.
Proof. solve_decision. Defined.
#[global] Instance exc_eq_dec : EqDecision exc.
Proof. solve_decision. Defined.

(** [isinstance(e, (ValueError, RuntimeError))]. *)
Definition is_ValueError_or_RuntimeError (e : exc) : bool :=
  match exc_cls e with
  | ValueError | ValidationError | RuntimeError | NotImplementedError => true
  | _ => false
  end.

(** The classes that derive from [BaseException] and not from
    [Exception]: a clause [except Exception] does not handle them.
    ([asyncio.CancelledError] is one of them since Python 3.8.) *)
Inductive interrupt : Type :=
| SystemExit (code : Z)
| KeyboardInterrupt
| CancelledError
| GeneratorExit.

#[global] Instance interrupt_eq_dec : EqDecision interrupt.
Proof. solve_decision. Defined.

(** Why a call gives no value to the code that waits for it: it raised
    an exception that is an [Exception], it raised one that is not, or it
    never completes. *)
Inductive failure : Type :=
| Exception (e : exc)
| Escape (s : interrupt)
| Stall.

Coercion Exception : exc >-> failure.

#[global] Instance failure_eq_dec : EqDecision failure.
Proof. solve_decision. Defined.

(** The outcome of a call: it returns a value, or it gives none, for a
    reason of type [E]. *)
Inductive res_of (E A : Type) : Type :=
| Ret (a : A)
| Raise (e : E).
Arguments Ret {E A} a.
Arguments Raise {E A} e.

(** A call that returns or raises an [Exception]: the conversion, the
    formatter, the hooks, the result backend and the broker's own
    methods are taken to end in one of these two ways. *)
Abbreviation res := (res_of exc).

Definition raised {E A} (r : res_of E A) : bool :=
  match r with Ret _ => false | Raise _ => true end.

(** [l[i]] for a Python list: negative indices count from the end,
    and an index out of range raises [IndexError]. *)
Definition getitem (l : list value) (i : Z) : res value :=
  let n := Z.of_nat (length l) in
  let j := if i <? 0 then i + n else i in
  if (j <? 0) || (n <=? j) then Raise (Exc IndexError "list index out of range")
  else match l !! Z.to_nat j with
       | Some v => Ret v
       | None => Raise (Exc IndexError "list index out of range")
       end.

(** [l[i] = v]. *)
Definition setitem (l : list value) (i : Z) (v : value) : res (list value) :=
  let n := Z.of_nat (length l) in
  let j := if i <? 0 then i + n else i in
  if (j <? 0) || (n <=? j)
  then Raise (Exc IndexError "list assignment index out of range")
  else Ret (<[Z.to_nat j := v]> l).

(** [d.get(key)] for a dict: [None] when the key is missing. *)
Definition dict_get (d : gmap string value) (key : string) : value :=
  default VNone (d !! key).

End Py.
Import Py.

(** ** Messages and signatures *)

(** [taskiq.message.TaskiqMessage]: the decoded invocation. *)
Record TaskiqMessage : Type := {
  task_id : string;
  task_name : string;
  labels : gmap string string;
  args : list value;
  kwargs : gmap string value;
}.

Definition with_args (message : TaskiqMessage) (a : list value) : TaskiqMessage :=
  {| task_id := task_id message; task_name := task_name message;
     labels := labels message; args := a; kwargs := kwargs message |}.

Definition with_kwargs (message : TaskiqMessage) (k : gmap string value) : TaskiqMessage :=
  {| task_id := task_id message; task_name := task_name message;
     labels := labels message; args := args message; kwargs := k |}.

(** Declared parameter types.  [AAny] is [typing.Any]; [ANamed] stands
  for any other annotation. *)
Inductive annot : Type :=
| AInt
| AStr
| ABool
| AAny
| ANamed (name : string).

(** [inspect.Parameter]: [annotation = None] is [Parameter.empty]. *)
Record SigParameter : Type := {
  param_name : string;
  annotation : option annot;
}.

(** [inspect.Signature.parameters], in declaration order. *)
Definition Signature : Type := list SigParameter.

(** ** parse_params *)

Section ParameterCoercer.

(** [pydantic.parse_obj_as]. *)
Variable parse_obj_as : annot -> value -> res value.

(** The body of the [for] loop of [parse_params], unrolled over the
    remaining parameters.  The result is the message as mutated so
    far and the exception that left the loop, if any.  The records the
    loop writes at debug level are not part of the model. *)
Fixpoint parse_loop (params : list SigParameter) (argnum : Z)
    (message : TaskiqMessage) : TaskiqMessage * option exc :=
  match params with
  | [] => (message, None)
  | params_type :: rest =>
    match annotation params_type with
    | None => parse_loop rest argnum message
    | Some annot =>
      let argnum := argnum + 1 in
      if Z.of_nat (length (args message)) <=? argnum then
        let value := dict_get (kwargs message) (param_name params_type) in
        if bool_decide (value = VNone) then parse_loop rest argnum message
        else
          match parse_obj_as annot value with
          | Ret parsed =>
            parse_loop rest argnum
              (with_kwargs message (<[param_name params_type := parsed]> (kwargs message)))
          | Raise e =>
            if is_ValueError_or_RuntimeError e
            then parse_loop rest argnum message
            else (message, Some e)
          end
      else
        match getitem (args message) argnum with
        | Raise e => (message, Some e)
        | Ret value =>
          if bool_decide (value = VNone) then parse_loop rest argnum message
          else
            match parse_obj_as annot value with
            | Ret parsed =>
              match setitem (args message) argnum parsed with
              | Ret args' => parse_loop rest argnum (with_args message args')
              | Raise e => (message, Some e)
              end
            | Raise e =>
              if is_ValueError_or_RuntimeError e
              then parse_loop rest argnum message
              else (message, Some e)
            end
        end
    end
  end.

Definition parse_params (signature : option Signature) (message : TaskiqMessage)
    : TaskiqMessage * option exc :=
  match signature with
  | None => (message, None)
  | Some sig => parse_loop sig (-1) message
  end.

End ParameterCoercer.

(** ** run_task *)

(** [taskiq.result.TaskiqResult]. *)
Record TaskiqResult : Type := {
  is_err : bool;
  log : string;
  return_value : value;
  execution_time : float;
}.

(** One call of a task function, as [run_task] observes it: the text
    the log collector captures (under a given format), the readings of
    [time()] before and after the call, and how the call of the function
    itself ends: it returns, it raises an [Exception], it raises a
    [BaseException] that is none ([sys.exit()] in the task, a
    cancellation), or it never returns. *)
Record HandlerRun : Type := {
  captured : string -> string;
  clock_before : float;
  clock_after : float;
  outcome : res_of failure value;
}.

(** A task function.  [is_coroutine] is [asyncio.iscoroutinefunction]. *)
Record Target : Type := {
  is_coroutine : bool;
  call : list value -> gmap string value -> HandlerRun;
}.

(** [taskiq.abc.middleware.TaskiqMiddleware].  The hooks may raise;
    [on_error] and [post_execute] return nothing. *)
Record TaskiqMiddleware : Type := {
  pre_execute : TaskiqMessage -> res TaskiqMessage;
  on_error : TaskiqMessage -> TaskiqResult -> exc -> res unit;
  post_execute : TaskiqMessage -> TaskiqResult -> res unit;
}.

(** [taskiq.message.BrokerMessage]: the raw unit the broker yields. *)
Record BrokerMessage : Type := {
  bm_task_id : string;
  bm_task_name : string;
  bm_message : string;
  bm_labels : gmap string string;
}.

(** What the worker does to the outside, in program order: records of
    the logger at warning level and above, calls of task functions and
    calls of the result backend. *)
Inductive event : Type :=
| Warning_task_not_found (name : string)
| Warning_cannot_parse (message : BrokerMessage) (e : exc)
| Error_exception_in_function (e : exc)
| Exception_cannot_set_result (e : exc)
| Call_target (a : list value) (k : gmap string value)
| Call_set_result (id : string) (result : TaskiqResult).

Definition run_sync (target : Target) (message : TaskiqMessage) : HandlerRun :=
  call target (args message) (kwargs message).

(** [for middleware in middlewares: await maybe_awaitable(middleware.on_error(...))]. *)
Fixpoint run_on_error (middlewares : list TaskiqMiddleware) (message : TaskiqMessage)
    (result : TaskiqResult) (found_exception : exc) : res unit :=
  match middlewares with
  | [] => Ret tt
  | middleware :: rest =>
    match on_error middleware message result found_exception with
    | Ret _ => run_on_error rest message result found_exception
    | Raise e => Raise e
    end
  end.

(** The [TaskiqResult] that [run_task] builds (lines 160-169) from
    the call, the value it returned ([None] when it raised) and the
    exception found. *)
Definition make_result (run : HandlerRun) (log_collector_format : string)
    (returned : value) (found_exception : option exc) : TaskiqResult :=
  {| is_err := bool_decide (found_exception ≠ None);
     log := captured run log_collector_format;
     return_value := returned;
     execution_time := PrimFloat.sub (clock_after run) (clock_before run) |}.

(** How the call ends for [run_task], which awaits it (lines 144-152).
    A coroutine that raises [StopIteration] makes the [await] raise a
    [RuntimeError] instead.  A synchronous function runs in the
    executor, and [asyncio] refuses to store a [StopIteration] in the
    future that [run_task] awaits: that future is never completed. *)
Definition awaited (coroutine : bool) (o : res_of failure value)
    : res_of failure value :=
  match o with
  | Raise (Exception e) =>
    if bool_decide (exc_cls e = StopIteration) then
      if coroutine
      then Raise (Exception (Exc RuntimeError "coroutine raised StopIteration"))
      else Raise Stall
    else o
  | _ => o
  end.

Section TaskExecutor.

Variable parse_obj_as : annot -> value -> res value.

(** [run_task].  The thread pool only decides where a synchronous
    function runs, so [executor] is not a parameter here.  The second
    component is [message] as [parse_params] left it: the caller holds
    the same object.  The third is how [run_task] ends for its caller:
    with the result, with an exception, or never. *)
Definition run_task (target : Target) (signature : option Signature)
    (message : TaskiqMessage) (log_collector_format : string)
    (middlewares : option (list TaskiqMiddleware))
    : list event * TaskiqMessage * res_of failure TaskiqResult :=
  let middlewares := default [] middlewares in
  match parse_params parse_obj_as signature message with
  | (message, Some e) => ([], message, Raise (Exception e))
  | (message, None) =>
    let run :=
      if is_coroutine target
      then call target (args message) (kwargs message)
      else run_sync target message in
    let called := Call_target (args message) (kwargs message) in
    match awaited (is_coroutine target) (outcome run) with
    | Ret returned =>
      ([called], message, Ret (make_result run log_collector_format returned None))
    | Raise (Exception found_exception) =>
      let result :=
        make_result run log_collector_format VNone (Some found_exception) in
      let events := [called; Error_exception_in_function found_exception] in
      match run_on_error middlewares message result found_exception with
      | Ret _ => (events, message, Ret result)
      | Raise e => (events, message, Raise (Exception e))
      end
    | Raise (Escape s) => ([called], message, Raise (Escape s))
    | Raise Stall => ([called], message, Raise Stall)
    end
  end.

End TaskExecutor.

(** ** Shutdown *)

Inductive log_record : Type :=
| Info_broker_returned (v : value)
| Warning_exception_on_shutdown
| Warning_exc (e : exc)
| Info_worker_killed
| Info_got_signal (signum : Z).

(** The end of the process: what [exit_process] logged, the tasks it
    cancelled and the status it passed to [sys.exit]. *)
Record ProcessExit : Type := {
  exit_logged : list log_record;
  exit_cancelled : list nat;
  exit_status : Z;
}.

(** [exit_process].  [task] is what [task.result()] does for the
    finished [broker.shutdown()] task; [all_tasks] is
    [asyncio.all_tasks(loop)]. *)
Definition exit_process (task : res value) (all_tasks : list nat) : ProcessExit :=
  let exitcode := 0 in
  let '(exitcode, logged) :=
    match task with
    | Ret result =>
      (exitcode,
       if bool_decide (result ≠ VNone) then [Info_broker_returned result] else [])
    | Raise e => (1, [Warning_exception_on_shutdown; Warning_exc e])
    end in
  {| exit_logged := logged ++ [Info_worker_killed];
     exit_cancelled := all_tasks;
     exit_status := exitcode |}.

Inductive coroutine : Type :=
| Broker_shutdown
| Other_coroutine (id : nat).

#[global] Instance coroutine_eq_dec : EqDecision coroutine.
Proof. solve_decision. Defined.

Inductive callback : Type :=
| Exit_process.

(** A task on the event loop with its done callbacks. *)
Record LoopTask : Type := {
  coro : coroutine;
  done_callbacks : list callback;
}.

(** The state the signal handler reads and writes: the broker's
    [_is_shutting_down] attribute ([None] while it is not set), the tasks
    created on the loop (oldest first) and the logger. *)
Record Runtime : Type := {
  _is_shutting_down : option bool;
  loop_tasks : list LoopTask;
  logged : list log_record;
}.

(** [_handler], the closure [signal_handler(broker)] returns. *)
Definition _handler (signum : Z) (rt : Runtime) : Runtime :=
  if default false (_is_shutting_down rt) then rt
  else
    {| _is_shutting_down := Some true;
       logged := logged rt ++ [Info_got_signal signum];
       loop_tasks := loop_tasks rt ++
         [{| coro := Broker_shutdown; done_callbacks := [Exit_process] |}] |}.

(** Teardown sequences on the loop: tasks running [broker.shutdown()]. *)
Definition teardowns (rt : Runtime) : nat :=
  length (filter (λ t, coro t = Broker_shutdown) (loop_tasks rt)).

(** When a task is done the loop calls its done callbacks with it, so
    every [Exit_process] callback on the loop is one call of
    [exit_process], hence of [sys.exit].  [shutdown] is how
    [broker.shutdown()] ends and [all_tasks] is what
    [asyncio.all_tasks] returns at that point. *)
Definition exit_calls (shutdown : res value) (all_tasks : list nat) (rt : Runtime)
    : list ProcessExit :=
  t ← loop_tasks rt;
  cb ← done_callbacks t;
  match cb with Exit_process => [exit_process shutdown all_tasks] end.

(** ** async_listen_messages *)

(** [AsyncTaskiqDecoratedTask]: a registered task.  [func_signature] is
    [inspect.signature(task.original_func)]. *)
Record AsyncTaskiqDecoratedTask : Type := {
  decorated_task_name : string;
  original_func : Target;
  func_signature : Signature;
}.

(** [taskiq.abc.broker.AsyncBroker], as the worker uses it. *)
Record AsyncBroker : Type := {
  available_tasks : gmap string AsyncTaskiqDecoratedTask;
  formatter_loads : BrokerMessage -> res TaskiqMessage;
  middlewares : list TaskiqMiddleware;
  result_backend_set_result : string -> TaskiqResult -> res unit;
  startup : res unit;
  shutdown : res value;
}.

(** [taskiq.cli.args.TaskiqArgs]. *)
Record TaskiqArgs : Type := {
  max_threadpool_threads : nat;
  no_parse : bool;
  log_collector_format : string;
}.

(** The dictionary [task_signatures] built before listening.  Two
    registry entries never carry the same [task_name], so the order in
    which the values are visited does not show. *)
Definition build_task_signatures (broker : AsyncBroker) (cli_args : TaskiqArgs)
    : gmap string Signature :=
  foldl
    (λ task_signatures task,
       if negb (no_parse cli_args)
       then <[decorated_task_name task := func_signature task]> task_signatures
       else task_signatures)
    ∅ (snd <$> map_to_list (available_tasks broker)).

(** [for middleware in broker.middlewares: taskiq_msg = await ...pre_execute(taskiq_msg)]. *)
Fixpoint run_pre_execute (mws : list TaskiqMiddleware) (taskiq_msg : TaskiqMessage)
    : res TaskiqMessage :=
  match mws with
  | [] => Ret taskiq_msg
  | middleware :: rest =>
    match pre_execute middleware taskiq_msg with
    | Ret taskiq_msg => run_pre_execute rest taskiq_msg
    | Raise e => Raise e
    end
  end.

(** [for middleware in broker.middlewares: await ...post_execute(taskiq_msg, result)]. *)
Fixpoint run_post_execute (mws : list TaskiqMiddleware) (taskiq_msg : TaskiqMessage)
    (result : TaskiqResult) : res unit :=
  match mws with
  | [] => Ret tt
  | middleware :: rest =>
    match post_execute middleware taskiq_msg result with
    | Ret _ => run_post_execute rest taskiq_msg result
    | Raise e => Raise e
    end
  end.

Section WorkerLoop.

Variable parse_obj_as : annot -> value -> res value.
Variable broker : AsyncBroker.
Variable cli_args : TaskiqArgs.

(** The body of [async for message in broker.listen()].  The second
    component is what keeps the body from ending, if anything: the
    exception that leaves it, or [Stall] when [run_task] never returns;
    [None] means the loop goes on to the next message. *)
Definition handle_message (task_signatures : gmap string Signature)
    (message : BrokerMessage) : list event * option failure :=
  match available_tasks broker !! bm_task_name message with
  | None => ([Warning_task_not_found (bm_task_name message)], None)
  | Some task =>
    match formatter_loads broker message with
    | Raise e => ([Warning_cannot_parse message e], None)
    | Ret taskiq_msg =>
      match run_pre_execute (middlewares broker) taskiq_msg with
      | Raise e => ([], Some (Exception e))
      | Ret taskiq_msg =>
        match run_task parse_obj_as (original_func task)
                (task_signatures !! bm_task_name message) taskiq_msg
                (log_collector_format cli_args) (Some (middlewares broker)) with
        | (events, _, Raise e) => (events, Some e)
        | (events, taskiq_msg, Ret result) =>
          match run_post_execute (middlewares broker) taskiq_msg result with
          | Raise e => (events, Some (Exception e))
          | Ret _ =>
            let events := events ++ [Call_set_result (bm_task_id message) result] in
            match result_backend_set_result broker (bm_task_id message) result with
            | Ret _ => (events, None)
            | Raise e => (events ++ [Exception_cannot_set_result e], None)
            end
          end
        end
      end
    end
  end.

(** The [async for] loop over the messages [broker.listen()] yields. *)
Fixpoint listen_loop (task_signatures : gmap string Signature)
    (stream : list BrokerMessage) : list event * option failure :=
  match stream with
  | [] => ([], None)
  | message :: rest =>
    match handle_message task_signatures message with
    | (events, Some e) => (events, Some e)
    | (events, None) =>
      let '(events', r) := listen_loop task_signatures rest in
      (events ++ events', r)
    end
  end.

(** [async_listen_messages], after the signal handlers are installed. *)
Definition async_listen_messages (stream : list BrokerMessage)
    : list event * option failure :=
  match startup broker with
  | Raise e => ([], Some (Exception e))
  | Ret _ => listen_loop (build_task_signatures broker cli_args) stream
  end.

End WorkerLoop.

(** Calls of the result backend and of task functions in a trace. *)
Definition set_result_calls (events : list event) : list (string * TaskiqResult) :=
  omap (λ ev, match ev with Call_set_result id r => Some (id, r) | _ => None end) events.

Definition target_calls (events : list event) : list (list value * gmap string value) :=
  omap (λ ev, match ev with Call_target a k => Some (a, k) | _ => None end) events.

(** ** Predicates used in the statements *)

(** One in-place replacement made by [parse_params] under signature
    [sig]: a positional or keyword argument that is not [None] is
    replaced by what [parse_obj_as] returns for it under the annotation
    of one of the parameters. *)
Inductive mutation (parse_obj_as : annot -> value -> res value) (sig : Signature)
    : TaskiqMessage -> TaskiqMessage -> Prop :=
| mutation_arg message i p a v parsed :
    p ∈ sig -> annotation p = Some a ->
    args message !! i = Some v -> v ≠ VNone ->
    parse_obj_as a v = Ret parsed ->
    mutation parse_obj_as sig message
      (with_args message (<[i := parsed]> (args message)))
| mutation_kwarg message p a v parsed :
    p ∈ sig -> annotation p = Some a ->
    kwargs message !! param_name p = Some v -> v ≠ VNone ->
    parse_obj_as a v = Ret parsed ->
    mutation parse_obj_as sig message
      (with_kwargs message (<[param_name p := parsed]> (kwargs message))).

(** The argument the loop looks at for the parameter [name] when the
    counter stands at [argnum] (lines 70-71 and 79): the positional
    argument at that index if there is one, the keyword argument of that
    name otherwise, [None] when that is missing. *)
Definition argument_of (message : TaskiqMessage) (argnum : Z) (name : string) : value :=
  if Z.of_nat (length (args message)) <=? argnum
  then dict_get (kwargs message) name
  else match getitem (args message) argnum with Ret v => v | Raise _ => VNone end.

(** What the loop does to one value under annotation [a]: [None] is
    kept, a value the conversion accepts is replaced, a value it rejects
    is kept. *)
Definition coerced (parse_obj_as : annot -> value -> res value)
    (a : annot) (v : value) : value :=
  if bool_decide (v = VNone) then v
  else match parse_obj_as a v with Ret parsed => parsed | Raise _ => v end.

(** [v] cannot be converted to any type the signature declares. *)
Definition unconvertible (parse_obj_as : annot -> value -> res value)
    (sig : Signature) (v : value) : Prop :=
  ∀ p a, p ∈ sig -> annotation p = Some a -> raised (parse_obj_as a v) = true.

(** [v] cannot be converted to the type declared for the parameter
    named [k] (which holds when that parameter has no annotation). *)
Definition kwarg_unconvertible (parse_obj_as : annot -> value -> res value)
    (sig : Signature) (k : string) (v : value) : Prop :=
  ∀ p a, p ∈ sig -> param_name p = k -> annotation p = Some a ->
         raised (parse_obj_as a v) = true.

(** The conversion fails with [ValueError] or [RuntimeError] only. *)
Definition fails_softly (parse_obj_as : annot -> value -> res value) : Prop :=
  ∀ a v e, parse_obj_as a v = Raise e -> is_ValueError_or_RuntimeError e = true.

(** The call ended in a way [run_task] deals with: it returned or it
    raised an [Exception]. *)
Definition settled (o : res_of failure value) : bool :=
  match o with
  | Ret _ | Raise (Exception _) => true
  | Raise (Escape _) | Raise Stall => false
  end.

(** Every call of the task function, once awaited, returns or raises an
    [Exception]: the function terminates, raises no [BaseException]
    outside [Exception], and raises no [StopIteration] if it is
    synchronous. *)
Definition settles (target : Target) : Prop :=
  ∀ a k, settled (awaited (is_coroutine target) (outcome (call target a k))) = true.

(** Every registered task function settles. *)
Definition tasks_settle (broker : AsyncBroker) : Prop :=
  ∀ name task, available_tasks broker !! name = Some task ->
               settles (original_func task).

(** No [on_error] hook of the list raises. *)
Definition on_error_quiet (mws : list TaskiqMiddleware) : Prop :=
  Forall (λ mw, ∀ m r e, raised (on_error mw m r e) = false) mws.

(** No hook of the list raises. *)
Definition hooks_quiet (mws : list TaskiqMiddleware) : Prop :=
  Forall (λ mw, ∀ m, raised (pre_execute mw m) = false) mws ∧
  on_error_quiet mws ∧
  Forall (λ mw, ∀ m r, raised (post_execute mw m r) = false) mws.

(** The signals of [signums] delivered one after the other, each to
    the handler [signal_handler(broker)] installed for it. *)
Definition deliver (signums : list Z) (rt : Runtime) : Runtime :=
  foldl (λ rt signum, _handler signum rt) rt signums.

(** The task of the message is in the registry. *)
Definition registered (broker : AsyncBroker) (message : BrokerMessage) : Prop :=
  is_Some (available_tasks broker !! bm_task_name message).

#[global] Instance registered_dec broker message : Decision (registered broker message).
Proof. unfold registered. apply _. Defined.

(** ** Instances for the examples *)

Module Demo.

Definition digit_of (c : ascii) : option Z :=
  let n := Z.of_N (N_of_ascii c) in
  if (48 <=? n) && (n <=? 57) then Some (n - 48) else None.

Fixpoint digits_to_Z (s : string) (acc : Z) : option Z :=
  match s with
  | EmptyString => Some acc
  | String c s' =>
    match digit_of c with
    | Some d => digits_to_Z s' (10 * acc + d)
    | None => None
    end
  end.

Definition int_of_string (s : string) : option Z :=
  match s with
  | EmptyString => None
  | _ => digits_to_Z s 0
  end.

(** What pydantic's [parse_obj_as] does for [int] and [Any] on scalars;
    for the other annotations it finds no validator. *)
Definition pydantic (a : annot) (v : value) : res value :=
  match a, v with
  | AAny, _ => Ret v
  | AInt, VInt _ => Ret v
  | AInt, VBool b => Ret (VInt (if b then 1 else 0))
  | AInt, VStr s =>
    match int_of_string s with
    | Some z => Ret (VInt z)
    | None => Raise (Exc ValidationError "value is not a valid integer")
    end
  | AInt, VNone => Raise (Exc ValidationError "none is not an allowed value")
  | _, _ => Raise (Exc RuntimeError "no validator found")
  end.

(** A conversion whose validator for the annotation [Lookup] fails with
    a [KeyError], as a validator of a user type may. *)
Definition pydantic_lookup (a : annot) (v : value) : res value :=
  match a with
  | ANamed "Lookup" => Raise (Exc KeyError "missing")
  | _ => pydantic a v
  end.

Definition msg (a : list value) (k : gmap string value) : TaskiqMessage :=
  {| task_id := "id-1"; task_name := "add"; labels := ∅; args := a; kwargs := k |}.

(** [def add(a: int, b: int) -> int]. *)
Definition add_signature : Signature :=
  [ {| param_name := "a"; annotation := Some AInt |};
    {| param_name := "b"; annotation := Some AInt |} ].

(** [def scale(a, b: int)]: the first parameter carries no annotation. *)
Definition scale_signature : Signature :=
  [ {| param_name := "a"; annotation := None |};
    {| param_name := "b"; annotation := Some AInt |} ].

Definition quiet (o : res_of failure value) : HandlerRun :=
  {| captured := λ _, ""; clock_before := 10%float; clock_after := 12%float;
     outcome := o |}.

Definition add : Target :=
  {| is_coroutine := false;
     call := λ a k,
       quiet match a, map_to_list k with
             | [VInt x; VInt y], [] => Ret (VInt (x + y))
             | _, _ =>
               Raise (Exception (Exc TypeError "unsupported operand type(s) for +"))
             end |}.

Definition add_task : AsyncTaskiqDecoratedTask :=
  {| decorated_task_name := "add"; original_func := add;
     func_signature := add_signature |}.

(** A task function that always raises. *)
Definition boom : Target :=
  {| is_coroutine := true;
     call := λ _ _, quiet (Raise (Exception (Exc (OtherError "Boom") "task failed"))) |}.

Definition boom_task : AsyncTaskiqDecoratedTask :=
  {| decorated_task_name := "boom"; original_func := boom; func_signature := [] |}.

(** A task function that calls [sys.exit(3)]. *)
Definition exits : Target :=
  {| is_coroutine := true; call := λ _ _, quiet (Raise (Escape (SystemExit 3))) |}.

Definition exits_task : AsyncTaskiqDecoratedTask :=
  {| decorated_task_name := "exits"; original_func := exits; func_signature := [] |}.

(** A synchronous task function that raises [StopIteration], as
    [next(iter([]))] does. *)
Definition stops : Target :=
  {| is_coroutine := false;
     call := λ _ _, quiet (Raise (Exception (Exc StopIteration ""))) |}.

Definition stops_task : AsyncTaskiqDecoratedTask :=
  {| decorated_task_name := "stops"; original_func := stops; func_signature := [] |}.

(** A middleware whose hooks do nothing. *)
Definition plain : TaskiqMiddleware :=
  {| pre_execute := λ m, Ret m;
     on_error := λ _ _ _, Ret tt;
     post_execute := λ _ _, Ret tt |}.

(** Middlewares with one failing hook each. *)
Definition failing_pre : TaskiqMiddleware :=
  {| pre_execute := λ _, Raise (Exc (OtherError "HookError") "pre_execute");
     on_error := λ _ _ _, Ret tt;
     post_execute := λ _ _, Ret tt |}.

Definition failing_on_error : TaskiqMiddleware :=
  {| pre_execute := λ m, Ret m;
     on_error := λ _ _ _, Raise (Exc (OtherError "HookError") "on_error");
     post_execute := λ _ _, Ret tt |}.

(** A middleware whose [post_execute] accepts integer arguments only. *)
Definition strict_post : TaskiqMiddleware :=
  {| pre_execute := λ m, Ret m;
     on_error := λ _ _ _, Ret tt;
     post_execute := λ m _,
       if forallb (λ v, match v with VInt _ => true | _ => false end) (args m)
       then Ret tt
       else Raise (Exc (OtherError "HookError") "argument is not an integer") |}.

Definition raw (id name : string) : BrokerMessage :=
  {| bm_task_id := id; bm_task_name := name; bm_message := "payload"; bm_labels := ∅ |}.

(** A message whose payload the formatter cannot decode. *)
Definition garbled (id name : string) : BrokerMessage :=
  {| bm_task_id := id; bm_task_name := name; bm_message := "{"; bm_labels := ∅ |}.

(** A formatter that decodes the payload ["payload"] to the call
    [add("2", "3")] and fails on anything else. *)
Definition loads (m : BrokerMessage) : res TaskiqMessage :=
  if bool_decide (bm_message m = "payload")
  then Ret {| task_id := bm_task_id m; task_name := bm_task_name m; labels := bm_labels m;
              args := [VStr "2"; VStr "3"]; kwargs := ∅ |}
  else Raise (Exc ValueError "cannot decode").

Definition broker_with (tasks : gmap string AsyncTaskiqDecoratedTask)
    (decode : BrokerMessage -> res TaskiqMessage) (mws : list TaskiqMiddleware)
    : AsyncBroker :=
  {| available_tasks := tasks; formatter_loads := decode; middlewares := mws;
     result_backend_set_result := λ _ _, Ret tt;
     startup := Ret tt; shutdown := Ret VNone |}.

(** The same broker with a result backend that is down. *)
Definition broker_backend_down (tasks : gmap string AsyncTaskiqDecoratedTask)
    (decode : BrokerMessage -> res TaskiqMessage) (mws : list TaskiqMiddleware)
    : AsyncBroker :=
  {| available_tasks := tasks; formatter_loads := decode; middlewares := mws;
     result_backend_set_result :=
       λ _ _, Raise (Exc (OtherError "ConnectionError") "backend is down");
     startup := Ret tt; shutdown := Ret VNone |}.

Definition cli : TaskiqArgs :=
  {| max_threadpool_threads := 10; no_parse := false; log_collector_format := "%(message)s" |}.

Definition fresh : Runtime :=
  {| _is_shutting_down := None; loop_tasks := []; logged := [] |}.

End Demo.

(** * Properties *)

(** ** List indexing *)

Lemma getitem_in_range (l : list value) (i : Z) :
  0 <= i < Z.of_nat (length l) ->
  ∃ v, getitem l i = Ret v ∧ l !! Z.to_nat i = Some v.
Proof.
  intros Hi. unfold getitem.
  destruct (Z.ltb_spec i 0) as [?|_]; [lia|].
  destruct (Z.ltb_spec i 0) as [?|_]; [lia|].
  destruct (Z.leb_spec (Z.of_nat (length l)) i) as [?|_]; [lia|]. simpl.
  destruct (lookup_lt_is_Some_2 l (Z.to_nat i)) as [v Hv]; [lia|].
  rewrite Hv. eauto.
Qed.

Lemma setitem_in_range (l : list value) (i : Z) (v : value) :
  0 <= i < Z.of_nat (length l) ->
  setitem l i v = Ret (<[Z.to_nat i := v]> l).
Proof.
  intros Hi. unfold setitem.
  destruct (Z.ltb_spec i 0) as [?|_]; [lia|].
  destruct (Z.ltb_spec i 0) as [?|_]; [lia|].
  destruct (Z.leb_spec (Z.of_nat (length l)) i) as [?|_]; [lia|]. done.
Qed.

(** ** What parse_params can do to a message *)

Section CoercerFacts.

Variable parse_obj_as : annot -> value -> res value.

Lemma mutation_weaken (sig sig' : Signature) (m m' : TaskiqMessage) :
  (∀ p, p ∈ sig -> p ∈ sig') ->
  mutation parse_obj_as sig m m' -> mutation parse_obj_as sig' m m'.
Proof.
  intros Hsub Hm. destruct Hm; econstructor; eauto.
Qed.

(** The loop is a sequence of mutations, and the only exception that
    leaves it is one [parse_obj_as] raised outside the two classes the
    [except] clauses name. *)
Lemma parse_loop_mutations (sig params : Signature) (argnum : Z) (message : TaskiqMessage) :
  (∀ p, p ∈ params -> p ∈ sig) ->
  -1 <= argnum ->
  rtc (mutation parse_obj_as sig) message
      (parse_loop parse_obj_as params argnum message).1 ∧
  ∀ e, (parse_loop parse_obj_as params argnum message).2 = Some e ->
       is_ValueError_or_RuntimeError e = false ∧
       ∃ a v, parse_obj_as a v = Raise e.
Proof.
  revert argnum message.
  induction params as [|p rest IH]; intros argnum message Hsub Hargnum; simpl.
  { split; [constructor | discriminate]. }
  assert (Hrest : ∀ q, q ∈ rest -> q ∈ sig) by (intros q Hq; apply Hsub; by right).
  assert (Hp : p ∈ sig) by (apply Hsub; by left).
  assert (Hnext : -1 <= argnum + 1) by lia.
  destruct (annotation p) as [a|] eqn:Ha; [|by apply IH].
  destruct (Z.leb_spec (Z.of_nat (length (args message))) (argnum + 1)) as [Hge|Hlt].
  - (* the parameter is looked up among the keyword arguments *)
    case_bool_decide as Hv; [by apply IH|].
    assert (Hk : kwargs message !! param_name p
                 = Some (dict_get (kwargs message) (param_name p))).
    { unfold dict_get in *. by destruct (kwargs message !! param_name p). }
    destruct (parse_obj_as a _) as [parsed|e0] eqn:Hparse.
    + destruct (IH (argnum + 1)
        (with_kwargs message (<[param_name p := parsed]> (kwargs message))))
        as [Hrtc Hexc]; [done..|].
      split; [|done].
      eapply rtc_l; [|exact Hrtc]. by eapply mutation_kwarg.
    + destruct (is_ValueError_or_RuntimeError e0) eqn:Hcls; [by apply IH|].
      split; [constructor|]. intros e [= <-]. eauto.
  - (* the parameter is taken from the positional arguments *)
    destruct (getitem_in_range (args message) (argnum + 1)) as (v & Hget & Hlook); [lia|].
    rewrite Hget.
    case_bool_decide as Hv; [by apply IH|].
    destruct (parse_obj_as a v) as [parsed|e0] eqn:Hparse.
    + rewrite setitem_in_range by lia.
      destruct (IH (argnum + 1)
        (with_args message (<[Z.to_nat (argnum + 1) := parsed]> (args message))))
        as [Hrtc Hexc]; [done..|].
      split; [|done].
      eapply rtc_l; [|exact Hrtc]. by eapply mutation_arg.
    + destruct (is_ValueError_or_RuntimeError e0) eqn:Hcls; [by apply IH|].
      split; [constructor|]. intros e [= <-]. eauto.
Qed.

Lemma parse_params_mutations (signature : option Signature) (message : TaskiqMessage) :
  rtc (mutation parse_obj_as (default [] signature)) message
      (parse_params parse_obj_as signature message).1 ∧
  ∀ e, (parse_params parse_obj_as signature message).2 = Some e ->
       is_ValueError_or_RuntimeError e = false ∧
       ∃ a v, parse_obj_as a v = Raise e.
Proof.
  destruct signature as [sig|]; simpl.
  - by apply parse_loop_mutations.
  - split; [constructor | discriminate].
Qed.

Lemma parse_params_soft (signature : option Signature) (message : TaskiqMessage) :
  fails_softly parse_obj_as ->
  (parse_params parse_obj_as signature message).2 = None.
Proof.
  intros Hsoft.
  destruct (parse_params_mutations signature message) as [_ Hexc].
  destruct (parse_params parse_obj_as signature message).2 as [e|]; [|done].
  destruct (Hexc e eq_refl) as (Hcls & a & v & Hraise).
  apply Hsoft in Hraise. congruence.
Qed.

(** A mutation replaces a value and nothing else. *)
Lemma mutation_frame (sig : Signature) (m m' : TaskiqMessage) :
  mutation parse_obj_as sig m m' ->
  task_id m' = task_id m ∧ task_name m' = task_name m ∧ labels m' = labels m ∧
  length (args m') = length (args m) ∧ dom (kwargs m') = dom (kwargs m).
Proof.
  intros Hm. destruct Hm as [m i p a v parsed _ _ _ _ _|m p a v parsed _ _ Hk _ _]; simpl.
  - by rewrite length_insert.
  - repeat split. apply dom_insert_lookup_L. by rewrite Hk.
Qed.

Lemma mutation_arg_kept (sig : Signature) (m m' : TaskiqMessage) (i : nat) (v : value) :
  mutation parse_obj_as sig m m' ->
  args m !! i = Some v ->
  v = VNone ∨ unconvertible parse_obj_as sig v ->
  args m' !! i = Some v.
Proof.
  intros Hm Hi Hv.
  destruct Hm as [m j p a w parsed Hp Ha Hj Hw Hparse|m p a w parsed _ _ _ _ _]; simpl; [|done].
  destruct (decide (j = i)) as [->|Hne]; [|by rewrite list_lookup_insert_ne].
  exfalso. assert (w = v) as -> by congruence.
  destruct Hv as [->|Hv]; [done|].
  specialize (Hv p a Hp Ha). by rewrite Hparse in Hv.
Qed.

Lemma mutation_kwarg_kept (sig : Signature) (m m' : TaskiqMessage) (k : string) (v : value) :
  mutation parse_obj_as sig m m' ->
  kwargs m !! k = Some v ->
  v = VNone ∨ kwarg_unconvertible parse_obj_as sig k v ->
  kwargs m' !! k = Some v.
Proof.
  intros Hm Hk Hv.
  destruct Hm as [m j p a w parsed _ _ _ _ _|m p a w parsed Hp Ha Hj Hw Hparse]; simpl; [done|].
  destruct (decide (param_name p = k)) as [Heq|Hne]; [|by rewrite lookup_insert_ne].
  exfalso. subst k. assert (w = v) as -> by congruence.
  destruct Hv as [->|Hv]; [done|].
  specialize (Hv p a Hp eq_refl Ha). by rewrite Hparse in Hv.
Qed.

Lemma mutations_frame (sig : Signature) (m m' : TaskiqMessage) :
  rtc (mutation parse_obj_as sig) m m' ->
  task_id m' = task_id m ∧ task_name m' = task_name m ∧ labels m' = labels m ∧
  length (args m') = length (args m) ∧ dom (kwargs m') = dom (kwargs m).
Proof.
  induction 1 as [|m1 m2 m3 Hstep _ IH]; [done|].
  destruct (mutation_frame _ _ _ Hstep) as (?&?&?&?&?).
  destruct IH as (?&?&?&?&?). repeat split; congruence.
Qed.

Lemma mutations_arg_kept (sig : Signature) (m m' : TaskiqMessage) (i : nat) (v : value) :
  rtc (mutation parse_obj_as sig) m m' ->
  args m !! i = Some v ->
  v = VNone ∨ unconvertible parse_obj_as sig v ->
  args m' !! i = Some v.
Proof.
  induction 1 as [|m1 m2 m3 Hstep _ IH]; [done|].
  intros Hi Hv. apply IH; [|done]. by eapply mutation_arg_kept.
Qed.

Lemma mutations_kwarg_kept (sig : Signature) (m m' : TaskiqMessage) (k : string) (v : value) :
  rtc (mutation parse_obj_as sig) m m' ->
  kwargs m !! k = Some v ->
  v = VNone ∨ kwarg_unconvertible parse_obj_as sig k v ->
  kwargs m' !! k = Some v.
Proof.
  induction 1 as [|m1 m2 m3 Hstep _ IH]; [done|].
  intros Hk Hv. apply IH; [|done]. by eapply mutation_kwarg_kept.
Qed.

(** The part of the frame that holds for every signature and message:
    [parse_params] keeps the number of positional arguments, the keys
    of the keyword arguments, every [None], and every keyword argument
    whose parameter has no annotation. *)
Lemma parse_params_frame (signature : option Signature) (message : TaskiqMessage) :
  let message' := (parse_params parse_obj_as signature message).1 in
  length (args message') = length (args message) ∧
  dom (kwargs message') = dom (kwargs message) ∧
  (∀ i, args message !! i = Some VNone -> args message' !! i = Some VNone) ∧
  (∀ k, kwargs message !! k = Some VNone -> kwargs message' !! k = Some VNone) ∧
  (∀ k v, kwargs message !! k = Some v ->
     (∀ p, p ∈ default [] signature -> param_name p = k -> annotation p = None) ->
     kwargs message' !! k = Some v).
Proof.
  intros message'.
  destruct (parse_params_mutations signature message) as [Hrtc _].
  fold message' in Hrtc.
  destruct (mutations_frame _ _ _ Hrtc) as (_&_&_&Hlen&Hdom).
  repeat split; [done|done|..].
  - intros i Hi. eapply mutations_arg_kept; eauto.
  - intros k Hk. eapply mutations_kwarg_kept; eauto.
  - intros k v Hk Hun. eapply mutations_kwarg_kept; eauto.
    right. intros q a Hq Hname Ha. rewrite (Hun q Hq Hname) in Ha. discriminate.
Qed.

(** The loop does not go back: with the counter at [k - 1], the
    arguments before index [k] stay as they are. *)
Lemma parse_loop_behind (params : Signature) (k : nat) (message : TaskiqMessage)
    (i : nat) :
  (i < k)%nat ->
  args (parse_loop parse_obj_as params (Z.of_nat k - 1) message).1 !! i
  = args message !! i.
Proof.
  revert k message.
  induction params as [|p rest IH]; intros k message Hi; simpl; [done|].
  destruct (annotation p) as [a|]; [|by apply IH].
  replace (Z.of_nat k - 1 + 1) with (Z.of_nat (S k) - 1) by lia.
  assert (Hgo : ∀ m', args m' !! i = args message !! i ->
    args (parse_loop parse_obj_as rest (Z.of_nat (S k) - 1) m').1 !! i
    = args message !! i).
  { intros m' <-. apply IH. lia. }
  destruct (Z.leb_spec (Z.of_nat (length (args message))) (Z.of_nat (S k) - 1)) as [Hge|Hlt].
  - case_bool_decide; [by apply Hgo|].
    destruct (parse_obj_as a _) as [parsed|e]; [by apply Hgo|].
    destruct (is_ValueError_or_RuntimeError e); [by apply Hgo|done].
  - destruct (getitem_in_range (args message) (Z.of_nat (S k) - 1)) as (w & -> & _);
      [lia|].
    case_bool_decide; [by apply Hgo|].
    destruct (parse_obj_as a w) as [parsed|e].
    + rewrite setitem_in_range by lia. apply Hgo. simpl.
      apply list_lookup_insert_ne. lia.
    + destruct (is_ValueError_or_RuntimeError e); [by apply Hgo|done].
Qed.

(** Which positional argument meets which annotation: with the counter
    at [k - 1], the argument at index [k + j] meets the [j]-th annotation
    that is present, counting annotated parameters only. *)
Lemma parse_loop_positional (params : Signature) (k j : nat) (message : TaskiqMessage)
    (v : value) :
  fails_softly parse_obj_as ->
  args message !! (k + j)%nat = Some v ->
  args (parse_loop parse_obj_as params (Z.of_nat k - 1) message).1 !! (k + j)%nat
  = Some (match omap annotation params !! j with
          | Some a => coerced parse_obj_as a v
          | None => v
          end).
Proof.
  intros Hsoft. revert k j message.
  induction params as [|p rest IH]; intros k j message Hv; simpl; [done|].
  destruct (annotation p) as [a|]; [|by apply IH].
  replace (Z.of_nat k - 1 + 1) with (Z.of_nat (S k) - 1) by lia.
  assert (Hlen : (k + j < length (args message))%nat) by (by eapply lookup_lt_Some).
  destruct (Z.leb_spec (Z.of_nat (length (args message))) (Z.of_nat (S k) - 1)) as [Hge|_];
    [lia|].
  destruct (getitem_in_range (args message) (Z.of_nat (S k) - 1)) as (w & -> & Hw); [lia|].
  replace (Z.to_nat (Z.of_nat (S k) - 1)) with k in Hw by lia.
  assert (Hset : ∀ parsed, setitem (args message) (Z.of_nat (S k) - 1) parsed
                           = Ret (<[k := parsed]> (args message))).
  { intros parsed. rewrite setitem_in_range by lia. do 2 f_equal. lia. }
  destruct j as [|j]; simpl.
  - (* the argument at the counter *)
    rewrite Nat.add_0_r in *. assert (w = v) as -> by congruence.
    unfold coerced. case_bool_decide.
    { rewrite parse_loop_behind by lia. done. }
    destruct (parse_obj_as a v) as [parsed|e] eqn:Hparse.
    + rewrite Hset, parse_loop_behind by lia. simpl. by apply list_lookup_insert_eq.
    + rewrite (Hsoft _ _ _ Hparse). rewrite parse_loop_behind by lia. done.
  - (* an argument after the counter *)
    replace (k + S j)%nat with (S k + j)%nat in * by lia.
    case_bool_decide; [by apply IH|].
    destruct (parse_obj_as a w) as [parsed|e] eqn:Hparse.
    + rewrite Hset. apply IH. simpl. rewrite list_lookup_insert_ne by lia. done.
    + rewrite (Hsoft _ _ _ Hparse). by apply IH.
Qed.

(** For a signature in which every parameter is annotated the pairing
    is the one of the signature: the argument at index [i] meets the
    annotation of the parameter at position [i]. *)
Lemma parse_params_positional_all_annotated (sig : Signature) (message : TaskiqMessage)
    (i : nat) (v : value) :
  fails_softly parse_obj_as ->
  Forall (λ p, is_Some (annotation p)) sig ->
  args message !! i = Some v ->
  args (parse_params parse_obj_as (Some sig) message).1 !! i
  = Some (match sig !! i with
          | Some p => from_option (λ a, coerced parse_obj_as a v) v (annotation p)
          | None => v
          end).
Proof.
  intros Hsoft Hall Hi. simpl.
  pose proof (parse_loop_positional sig 0 i message v Hsoft Hi) as Hpos.
  change (Z.of_nat 0 - 1) with (-1) in Hpos. simpl in Hpos. rewrite Hpos.
  f_equal. clear Hi Hpos. revert i.
  induction Hall as [|p rest [a Ha] _ IH]; intros i; simpl; [done|].
  rewrite Ha. destruct i as [|i]; simpl; [by rewrite Ha|]. apply IH.
Qed.

End CoercerFacts.

(** ** ParameterCoercer *)

(** The conversion of the examples fails with a [ValidationError] or a
    [RuntimeError]. *)
Lemma pydantic_fails_softly : fails_softly Demo.pydantic.
Proof.
  intros a v e.
  destruct a, v; simpl; try (intros [= <-]; reflexivity); try discriminate.
  destruct (Demo.int_of_string s); [discriminate|]. by intros [= <-].
Qed.

(** An annotated parameter advances [argnum], a parameter without
    annotation does not: the loop pairs the k-th annotated parameter with
    the k-th positional argument. *)
Lemma parse_loop_untyped (parse_obj_as : annot -> value -> res value)
    (name : string) (rest : Signature) (argnum : Z) (message : TaskiqMessage) :
  parse_loop parse_obj_as ({| param_name := name; annotation := None |} :: rest)
    argnum message
  = parse_loop parse_obj_as rest argnum message.
Proof. reflexivity. Qed.

(** C1.  The claim asks that a typed parameter at position i of the
    signature coerces the positional argument at index i, parameters
    without a type being skipped without shifting later ones.  For
    [def scale(a, b: int)] called with [("1", "2")] the code converts
    the argument at index 0, which belongs to [a], to the type of [b],
    and leaves the argument of [b] at index 1 as the string it was. *)
Theorem parse_params_misaligns_after_untyped :
  parse_params Demo.pydantic (Some Demo.scale_signature)
    (Demo.msg [VStr "1"; VStr "2"] ∅)
  = (Demo.msg [VInt 1; VStr "2"] ∅, None).
Proof. reflexivity. Qed.

(** C10.  The claim asks that every argument belonging to an untyped
    parameter is the original after [parse_params].  For
    [def scale(a, b: int)] called with [("1", "2")] the argument at
    index 0 belongs to the untyped parameter [a] and is replaced by the
    integer 1.  (The rest of the frame holds, see [parse_params_frame].) *)
Theorem parse_params_rewrites_untyped_positional :
  let message := Demo.msg [VStr "1"; VStr "2"] ∅ in
  let message' := (parse_params Demo.pydantic (Some Demo.scale_signature) message).1 in
  annotation <$> Demo.scale_signature !! 0%nat = Some None ∧
  args message !! 0%nat = Some (VStr "1") ∧
  args message' !! 0%nat = Some (VInt 1).
Proof. repeat split. Qed.

Section CoercerSteps.

Variable parse_obj_as : annot -> value -> res value.

(** One parameter whose conversion fails (lines 74-77 and 82-85): a
    [ValueError] or [RuntimeError] is dropped and the loop goes on with
    the message as it is; any other exception leaves the loop at once. *)
Lemma parse_loop_failed_step (p : SigParameter) (rest : Signature) (argnum : Z)
    (message : TaskiqMessage) (a : annot) (e : exc) :
  -1 <= argnum ->
  annotation p = Some a ->
  argument_of message (argnum + 1) (param_name p) ≠ VNone ->
  parse_obj_as a (argument_of message (argnum + 1) (param_name p)) = Raise e ->
  parse_loop parse_obj_as (p :: rest) argnum message
  = if is_ValueError_or_RuntimeError e
    then parse_loop parse_obj_as rest (argnum + 1) message
    else (message, Some e).
Proof.
  intros Hargnum Ha. unfold argument_of. simpl. rewrite Ha.
  destruct (Z.leb_spec (Z.of_nat (length (args message))) (argnum + 1)) as [Hge|Hlt].
  - intros Hv Hparse. rewrite bool_decide_eq_false_2 by done. by rewrite Hparse.
  - destruct (getitem_in_range (args message) (argnum + 1)) as (v & -> & _); [lia|].
    intros Hv Hparse. rewrite bool_decide_eq_false_2 by done. by rewrite Hparse.
Qed.

(** The loop over [l1 ++ l2] is the loop over [l1] and then, unless an
    exception left it, the loop over [l2], the counter having advanced
    by the number of annotated parameters of [l1]. *)
Lemma parse_loop_app (l1 l2 : Signature) (argnum : Z) (message : TaskiqMessage) :
  parse_loop parse_obj_as (l1 ++ l2) argnum message
  = match parse_loop parse_obj_as l1 argnum message with
    | (message1, Some e) => (message1, Some e)
    | (message1, None) =>
      parse_loop parse_obj_as l2
        (argnum + Z.of_nat (length (omap annotation l1))) message1
    end.
Proof.
  revert argnum message.
  induction l1 as [|p l1 IH]; intros argnum message; simpl.
  { by rewrite Z.add_0_r. }
  destruct (annotation p) as [a|]; simpl; [|apply IH].
  assert (Hnext : ∀ m,
    parse_loop parse_obj_as (l1 ++ l2) (argnum + 1) m
    = match parse_loop parse_obj_as l1 (argnum + 1) m with
      | (message1, Some e) => (message1, Some e)
      | (message1, None) =>
        parse_loop parse_obj_as l2
          (argnum + Z.of_nat (S (length (omap annotation l1)))) message1
      end).
  { intros m. rewrite IH.
    by replace (argnum + 1 + Z.of_nat (length (omap annotation l1)))
      with (argnum + Z.of_nat (S (length (omap annotation l1)))) by lia. }
  destruct (Z.leb_spec (Z.of_nat (length (args message))) (argnum + 1)) as [Hge|Hlt].
  - case_bool_decide; [apply Hnext|].
    destruct (parse_obj_as a _) as [parsed|e]; [apply Hnext|].
    destruct (is_ValueError_or_RuntimeError e); [apply Hnext|done].
  - destruct (getitem (args message) (argnum + 1)) as [v|e]; [|done].
    case_bool_decide; [apply Hnext|].
    destruct (parse_obj_as a v) as [parsed|e].
    + destruct (setitem (args message) (argnum + 1) parsed); [apply Hnext|done].
    + destruct (is_ValueError_or_RuntimeError e); [apply Hnext|done].
Qed.

(** A positional argument ends as it was or as what the conversion
    returned for it under the annotation the loop pairs with its index,
    whether or not an exception leaves the loop. *)
Lemma parse_loop_positional_either (params : Signature) (k j : nat)
    (message : TaskiqMessage) (v : value) :
  args message !! (k + j)%nat = Some v ->
  args (parse_loop parse_obj_as params (Z.of_nat k - 1) message).1 !! (k + j)%nat
  = Some v ∨
  ∃ a parsed,
    omap annotation params !! j = Some a ∧ parse_obj_as a v = Ret parsed ∧
    args (parse_loop parse_obj_as params (Z.of_nat k - 1) message).1 !! (k + j)%nat
    = Some parsed.
Proof.
  revert k j message.
  induction params as [|p rest IH]; intros k j message Hv; simpl; [by left|].
  destruct (annotation p) as [a|]; [|by apply IH].
  replace (Z.of_nat k - 1 + 1) with (Z.of_nat (S k) - 1) by lia.
  assert (Hlen : (k + j < length (args message))%nat) by (by eapply lookup_lt_Some).
  destruct (Z.leb_spec (Z.of_nat (length (args message))) (Z.of_nat (S k) - 1)) as [Hge|_];
    [lia|].
  destruct (getitem_in_range (args message) (Z.of_nat (S k) - 1)) as (w & -> & Hw); [lia|].
  replace (Z.to_nat (Z.of_nat (S k) - 1)) with k in Hw by lia.
  assert (Hset : ∀ parsed, setitem (args message) (Z.of_nat (S k) - 1) parsed
                           = Ret (<[k := parsed]> (args message))).
  { intros parsed. rewrite setitem_in_range by lia. do 2 f_equal. lia. }
  destruct j as [|j]; simpl.
  - (* the argument at the counter *)
    rewrite Nat.add_0_r in *. assert (w = v) as -> by congruence.
    case_bool_decide; [left; by rewrite parse_loop_behind by lia|].
    destruct (parse_obj_as a v) as [parsed|e] eqn:Hparse.
    + right. exists a, parsed. split; [done|]. split; [done|].
      rewrite Hset, parse_loop_behind by lia. simpl. by apply list_lookup_insert_eq.
    + left. destruct (is_ValueError_or_RuntimeError e); [|done].
      by rewrite parse_loop_behind by lia.
  - (* an argument after the counter *)
    replace (k + S j)%nat with (S k + j)%nat in * by lia.
    case_bool_decide; [by apply IH|].
    destruct (parse_obj_as a w) as [parsed|e] eqn:Hparse.
    + rewrite Hset. apply IH. simpl. rewrite list_lookup_insert_ne by lia. done.
    + destruct (is_ValueError_or_RuntimeError e); [by apply IH|by left].
Qed.

End CoercerSteps.

(** C5 as the claim states it fails: a conversion that raises a
    [KeyError] is not caught, [parse_params] raises it to its caller. *)
Lemma parse_params_raises_KeyError :
  (parse_params Demo.pydantic_lookup
     (Some [ {| param_name := "x"; annotation := Some (ANamed "Lookup") |} ])
     (Demo.msg [VStr "k"] ∅)).2
  = Some (Exc KeyError "missing").
Proof. reflexivity. Qed.

(** C5 (amended).  A value whose conversion fails stays in place as it
    was: a positional argument when the conversion fails under the
    annotation the loop pairs with its index, a keyword argument when it
    fails under the annotation of the parameter of that name.  At the
    parameter where a conversion fails, after a prefix [l1] of the
    signature that went through: a [ValueError] or [RuntimeError] is
    dropped and the loop goes on with the next parameter and the message
    as it is; an exception of any other class leaves [parse_params] at
    once, with the message as converted so far.  So what leaves
    [parse_params] was raised by the conversion and is of another class,
    and nothing leaves it when the conversion fails with those two
    classes only. *)
Theorem parse_params_failed_conversion
    (parse_obj_as : annot -> value -> res value)
    (sig : Signature) (message : TaskiqMessage) :
  let r := parse_params parse_obj_as (Some sig) message in
  (∀ i v a, args message !! i = Some v ->
            omap annotation sig !! i = Some a ->
            raised (parse_obj_as a v) = true ->
            args r.1 !! i = Some v) ∧
  (∀ k v, kwargs message !! k = Some v ->
          kwarg_unconvertible parse_obj_as sig k v ->
          kwargs r.1 !! k = Some v) ∧
  (∀ l1 p rest a e,
     sig = l1 ++ p :: rest ->
     (parse_params parse_obj_as (Some l1) message).2 = None ->
     annotation p = Some a ->
     let message1 := (parse_params parse_obj_as (Some l1) message).1 in
     let argnum := Z.of_nat (length (omap annotation l1)) in
     argument_of message1 argnum (param_name p) ≠ VNone ->
     parse_obj_as a (argument_of message1 argnum (param_name p)) = Raise e ->
     r = if is_ValueError_or_RuntimeError e
         then parse_loop parse_obj_as rest argnum message1
         else (message1, Some e)) ∧
  (∀ e, r.2 = Some e ->
        is_ValueError_or_RuntimeError e = false ∧ ∃ a v, parse_obj_as a v = Raise e) ∧
  (fails_softly parse_obj_as -> r.2 = None).
Proof.
  intros r.
  destruct (parse_params_mutations parse_obj_as (Some sig) message) as [Hrtc Hexc].
  fold r in Hrtc, Hexc.
  split; [|split; [|split; [|split]]].
  - intros i v a Hi Ha Hfail.
    destruct (parse_loop_positional_either parse_obj_as sig 0 i message v Hi)
      as [Hkept|(a' & parsed & Ha' & Hparse & _)]; [exact Hkept|].
    assert (a' = a) as -> by congruence. by rewrite Hparse in Hfail.
  - intros k v Hk Hv. eapply mutations_kwarg_kept; eauto.
  - intros l1 p rest a e -> Hprefix Ha message1 argnum Hv Hparse.
    subst r message1 argnum. unfold parse_params in *. rewrite parse_loop_app.
    destruct (parse_loop parse_obj_as l1 (-1) message) as [m1 r1].
    cbn [fst snd] in *. subst r1.
    remember (Z.of_nat (length (omap annotation l1))) as n eqn:Hn.
    assert (Hle : -1 <= -1 + n) by lia.
    assert (Hnext : n = -1 + n + 1) by lia.
    rewrite Hnext in Hv, Hparse.
    rewrite (parse_loop_failed_step parse_obj_as p rest _ m1 a e Hle Ha Hv Hparse).
    by rewrite <- Hnext.
  - exact Hexc.
  - apply parse_params_soft.
Qed.

Lemma parse_params_failed_conversion_witness :
  (* a positional value the conversion rejects stays, the next one is
     converted *)
  args (parse_params Demo.pydantic (Some Demo.add_signature)
          (Demo.msg [VStr "x"; VStr "3"] ∅)).1 !! 0%nat = Some (VStr "x") ∧
  (* a keyword value the conversion rejects stays *)
  kwargs (parse_params Demo.pydantic (Some Demo.add_signature)
            (Demo.msg [] {[ "a" := VStr "x"; "b" := VStr "3" ]})).1 !! "a"
  = Some (VStr "x") ∧
  (* a [ValidationError] is dropped and the loop goes on *)
  parse_params Demo.pydantic (Some Demo.add_signature) (Demo.msg [VStr "x"; VStr "3"] ∅)
  = (Demo.msg [VStr "x"; VInt 3] ∅, None) ∧
  (* a [KeyError] leaves at once, after the first parameter was converted
     and before the third is *)
  parse_params Demo.pydantic_lookup
    (Some [ {| param_name := "a"; annotation := Some AInt |};
            {| param_name := "x"; annotation := Some (ANamed "Lookup") |};
            {| param_name := "b"; annotation := Some AInt |} ])
    (Demo.msg [VStr "1"; VStr "k"; VStr "2"] ∅)
  = (Demo.msg [VInt 1; VStr "k"; VStr "2"] ∅, Some (Exc KeyError "missing")) ∧
  (parse_params Demo.pydantic (Some Demo.add_signature)
     (Demo.msg [VStr "x"; VStr "3"] ∅)).2 = None.
Proof.
  pose proof (parse_params_failed_conversion Demo.pydantic Demo.add_signature
    (Demo.msg [VStr "x"; VStr "3"] ∅)) as (Hargs & _ & Hstep & _ & Hsoft).
  pose proof (parse_params_failed_conversion Demo.pydantic Demo.add_signature
    (Demo.msg [] {[ "a" := VStr "x"; "b" := VStr "3" ]})) as (_ & Hkwargs & _).
  pose proof (parse_params_failed_conversion Demo.pydantic_lookup
    [ {| param_name := "a"; annotation := Some AInt |};
      {| param_name := "x"; annotation := Some (ANamed "Lookup") |};
      {| param_name := "b"; annotation := Some AInt |} ]
    (Demo.msg [VStr "1"; VStr "k"; VStr "2"] ∅)) as (_ & _ & Hstop & _).
  split; [|split; [|split; [|split]]].
  - exact (Hargs 0%nat (VStr "x") AInt eq_refl eq_refl eq_refl).
  - apply Hkwargs; [reflexivity|].
    intros p a Hp Hname Ha.
    apply elem_of_cons in Hp as [->|Hp].
    + simpl in Ha. by injection Ha as <-.
    + apply list_elem_of_singleton in Hp as ->. discriminate.
  - exact (Hstep [] {| param_name := "a"; annotation := Some AInt |}
             [ {| param_name := "b"; annotation := Some AInt |} ] AInt
             (Exc ValidationError "value is not a valid integer")
             eq_refl eq_refl eq_refl ltac:(discriminate) eq_refl).
  - exact (Hstop [ {| param_name := "a"; annotation := Some AInt |} ]
             {| param_name := "x"; annotation := Some (ANamed "Lookup") |}
             [ {| param_name := "b"; annotation := Some AInt |} ]
             (ANamed "Lookup") (Exc KeyError "missing")
             eq_refl eq_refl eq_refl ltac:(discriminate) eq_refl).
  - apply Hsoft, pydantic_fails_softly.
Defined.

(** ** TaskExecutor *)

Lemma run_on_error_quiet (mws : list TaskiqMiddleware) (message : TaskiqMessage)
    (result : TaskiqResult) (e : exc) :
  on_error_quiet mws -> run_on_error mws message result e = Ret tt.
Proof.
  induction 1 as [|mw rest Hmw _ IH]; simpl; [done|].
  specialize (Hmw message result e).
  destruct (on_error mw message result e); [exact IH | discriminate].
Qed.


Lemma awaited_Ret (coroutine : bool) (o : res_of failure value) (v : value) :
  awaited coroutine o = Ret v -> o = Ret v.
Proof.
  destruct o as [w|[e|s|]]; simpl; [done| |done..].
  case_bool_decide; [by destruct coroutine|done].
Qed.

(** [run_task] by cases: on what [parse_params] did, then on how the
    awaited call ended, then on what the [on_error] hooks did. *)
Lemma run_task_eq
    (parse_obj_as : annot -> value -> res value) (target : Target)
    (signature : option Signature) (message : TaskiqMessage)
    (fmt : string) (mws : option (list TaskiqMiddleware)) :
  let conv := parse_params parse_obj_as signature message in
  let run := call target (args conv.1) (kwargs conv.1) in
  let called := Call_target (args conv.1) (kwargs conv.1) in
  run_task parse_obj_as target signature message fmt mws
  = match conv.2 with
    | Some e => ([], conv.1, Raise (Exception e))
    | None =>
      match awaited (is_coroutine target) (outcome run) with
      | Ret v => ([called], conv.1, Ret (make_result run fmt v None))
      | Raise (Exception e) =>
        ([called; Error_exception_in_function e], conv.1,
         match run_on_error (default [] mws) conv.1
                 (make_result run fmt VNone (Some e)) e with
         | Ret _ => Ret (make_result run fmt VNone (Some e))
         | Raise e' => Raise (Exception e')
         end)
      | Raise f => ([called], conv.1, Raise f)
      end
    end.
Proof.
  unfold run_task, run_sync.
  destruct (parse_params parse_obj_as signature message) as [m [e|]]; simpl; [done|].
  assert (Hrun : (if is_coroutine target
                  then call target (args m) (kwargs m)
                  else call target (args m) (kwargs m))
                 = call target (args m) (kwargs m)) by (by destruct (is_coroutine target)).
  rewrite Hrun. clear Hrun.
  destruct (awaited _ _) as [v|[e|s|]]; [done| |done..].
  by destruct (run_on_error _ _ _ _).
Qed.

(** The message [run_task] hands back is the one [parse_params] left. *)
Lemma run_task_is_message
    (parse_obj_as : annot -> value -> res value) (target : Target)
    (signature : option Signature) (message : TaskiqMessage)
    (fmt : string) (mws : option (list TaskiqMiddleware))
    (events : list event) (message' : TaskiqMessage) (r : res_of failure TaskiqResult) :
  run_task parse_obj_as target signature message fmt mws = (events, message', r) ->
  message' = (parse_params parse_obj_as signature message).1.
Proof.
  rewrite run_task_eq.
  destruct (parse_params parse_obj_as signature message) as [m [e|]]; simpl;
    [by intros [= _ <- _]|].
  destruct (awaited _ _) as [v|[e|s|]]; by intros [= _ <- _].
Qed.


(** When the conversion fails softly, no [on_error] hook raises and the
    awaited call settles, [run_task] returns a result. *)
Lemma run_task_total
    (parse_obj_as : annot -> value -> res value) (target : Target)
    (signature : option Signature) (message : TaskiqMessage)
    (log_collector_format : string) (mws : option (list TaskiqMiddleware)) :
  let conv := parse_params parse_obj_as signature message in
  fails_softly parse_obj_as ->
  on_error_quiet (default [] mws) ->
  settled (awaited (is_coroutine target)
             (outcome (call target (args conv.1) (kwargs conv.1)))) = true ->
  ∃ events result,
    run_task parse_obj_as target signature message log_collector_format mws
    = (events, conv.1, Ret result).
Proof.
  intros conv Hsoft Hquiet Hsettled. rewrite run_task_eq. subst conv. cbv zeta.
  rewrite (parse_params_soft parse_obj_as signature message Hsoft).
  destruct (awaited _ _) as [v|[e|s|]]; [eauto| |done..].
  rewrite (run_on_error_quiet _ _ _ _ Hquiet). eauto.
Qed.





(** ** ShutdownController *)

Lemma handler_when_shutting_down (signum : Z) (rt : Runtime) :
  default false (_is_shutting_down rt) = true -> _handler signum rt = rt.
Proof. intros H. unfold _handler. by rewrite H. Qed.

Lemma handler_sets_flag (signum : Z) (rt : Runtime) :
  default false (_is_shutting_down (_handler signum rt)) = true.
Proof.
  unfold _handler. destruct (default false (_is_shutting_down rt)) eqn:H; done.
Qed.

(** C6.  A trigger that finds the broker shutting down changes nothing;
    so a second trigger after a first one changes nothing, and two
    triggers on a running worker put exactly one [broker.shutdown()]
    task on the loop, with exactly one call of [exit_process] (and so of
    [sys.exit]) attached to it. *)
Theorem shutdown_trigger_once (signum1 signum2 : Z) (rt : Runtime)
    (shutdown : res value) (all_tasks : list nat) :
  (default false (_is_shutting_down rt) = true -> _handler signum1 rt = rt) ∧
  _handler signum2 (_handler signum1 rt) = _handler signum1 rt ∧
  (default false (_is_shutting_down rt) = false ->
   teardowns (_handler signum2 (_handler signum1 rt)) = S (teardowns rt) ∧
   length (exit_calls shutdown all_tasks (_handler signum2 (_handler signum1 rt)))
   = S (length (exit_calls shutdown all_tasks rt))).
Proof.
  split; [apply handler_when_shutting_down|].
  split; [apply handler_when_shutting_down, handler_sets_flag|].
  intros Hrun.
  rewrite (handler_when_shutting_down signum2) by apply handler_sets_flag.
  unfold _handler. rewrite Hrun. unfold teardowns, exit_calls. simpl.
  split.
  - rewrite filter_app, length_app. simpl. lia.
  - rewrite bind_app, length_app. simpl. lia.
Qed.

Lemma shutdown_trigger_once_witness :
  let rt := _handler 2 (_handler 15 Demo.fresh) in
  _handler 2 rt = rt ∧
  teardowns rt = 1%nat ∧
  length (exit_calls (Ret VNone) [] rt) = 1%nat.
Proof.
  intros rt.
  pose proof (shutdown_trigger_once 15 2 Demo.fresh (Ret VNone) []) as (_ & _ & Hfresh).
  pose proof (shutdown_trigger_once 2 2 rt (Ret VNone) []) as (Hdown & _ & _).
  split; [apply Hdown; reflexivity|].
  apply Hfresh. reflexivity.
Defined.

(** C9.  The status [exit_process] passes to [sys.exit] is 1 when the
    [broker.shutdown()] task raised and 0 when it returned, whatever it
    returned and whatever tasks are on the loop. *)
Theorem exit_process_status (task : res value) (all_tasks : list nat) :
  exit_status (exit_process task all_tasks) = if raised task then 1 else 0.
Proof. by destruct task. Qed.

(** ** WorkerLoop *)

Section LoopFacts.

Variable parse_obj_as : annot -> value -> res value.
Variable broker : AsyncBroker.
Variable cli_args : TaskiqArgs.
Variable task_signatures : gmap string Signature.

Lemma run_pre_execute_quiet (mws : list TaskiqMiddleware) (taskiq_msg : TaskiqMessage) :
  Forall (λ mw, ∀ m, raised (pre_execute mw m) = false) mws ->
  ∃ taskiq_msg', run_pre_execute mws taskiq_msg = Ret taskiq_msg'.
Proof.
  intros H. revert taskiq_msg.
  induction H as [|mw rest Hmw _ IH]; intros taskiq_msg; simpl; [eauto|].
  specialize (Hmw taskiq_msg).
  destruct (pre_execute mw taskiq_msg); [apply IH | discriminate].
Qed.

Lemma run_post_execute_quiet (mws : list TaskiqMiddleware) (taskiq_msg : TaskiqMessage)
    (result : TaskiqResult) :
  Forall (λ mw, ∀ m r, raised (post_execute mw m r) = false) mws ->
  run_post_execute mws taskiq_msg result = Ret tt.
Proof.
  induction 1 as [|mw rest Hmw _ IH]; simpl; [done|].
  specialize (Hmw taskiq_msg result).
  destruct (post_execute mw taskiq_msg result); [exact IH | discriminate].
Qed.

(** [run_task] calls the task function once when it returns a result. *)
Lemma run_task_calls_target_once (target : Target) (signature : option Signature)
    (message : TaskiqMessage) (fmt : string) (mws : option (list TaskiqMiddleware))
    (events : list event) (message' : TaskiqMessage) (result : TaskiqResult) :
  run_task parse_obj_as target signature message fmt mws = (events, message', Ret result) ->
  target_calls events = [(args message', kwargs message')] ∧ set_result_calls events = [].
Proof.
  rewrite run_task_eq.
  destruct (parse_params parse_obj_as signature message) as [m [e|]]; [discriminate|].
  simpl. destruct (awaited _ _) as [v|[e|s|]]; [| |discriminate..].
  - by intros [= <- <- <-].
  - destruct (run_on_error _ _ _ _); [|discriminate]. by intros [= <- <- <-].
Qed.

(** The handling of a message of a registered task that decodes, step
    by step: each of the three calls between decoding and [set_result]
    either lets the handling go on or ends it. *)
Lemma handle_message_pre_raises (message : BrokerMessage)
    (task : AsyncTaskiqDecoratedTask) (decoded : TaskiqMessage) (e : exc) :
  available_tasks broker !! bm_task_name message = Some task ->
  formatter_loads broker message = Ret decoded ->
  run_pre_execute (middlewares broker) decoded = Raise e ->
  handle_message parse_obj_as broker cli_args task_signatures message
  = ([], Some (Exception e)).
Proof. intros Hknown Hloads Hpre. unfold handle_message. by rewrite Hknown, Hloads, Hpre. Qed.

Lemma handle_message_run_task_fails (message : BrokerMessage)
    (task : AsyncTaskiqDecoratedTask) (decoded taskiq_msg taskiq_msg' : TaskiqMessage)
    (events : list event) (f : failure) :
  available_tasks broker !! bm_task_name message = Some task ->
  formatter_loads broker message = Ret decoded ->
  run_pre_execute (middlewares broker) decoded = Ret taskiq_msg ->
  run_task parse_obj_as (original_func task)
    (task_signatures !! bm_task_name message) taskiq_msg
    (log_collector_format cli_args) (Some (middlewares broker))
  = (events, taskiq_msg', Raise f) ->
  handle_message parse_obj_as broker cli_args task_signatures message
  = (events, Some f).
Proof.
  intros Hknown Hloads Hpre Hrun. unfold handle_message.
  by rewrite Hknown, Hloads, Hpre, Hrun.
Qed.

Lemma handle_message_post_raises (message : BrokerMessage)
    (task : AsyncTaskiqDecoratedTask) (decoded taskiq_msg taskiq_msg' : TaskiqMessage)
    (events : list event) (result : TaskiqResult) (e : exc) :
  available_tasks broker !! bm_task_name message = Some task ->
  formatter_loads broker message = Ret decoded ->
  run_pre_execute (middlewares broker) decoded = Ret taskiq_msg ->
  run_task parse_obj_as (original_func task)
    (task_signatures !! bm_task_name message) taskiq_msg
    (log_collector_format cli_args) (Some (middlewares broker))
  = (events, taskiq_msg', Ret result) ->
  run_post_execute (middlewares broker) taskiq_msg' result = Raise e ->
  handle_message parse_obj_as broker cli_args task_signatures message
  = (events, Some (Exception e)).
Proof.
  intros Hknown Hloads Hpre Hrun Hpost. unfold handle_message.
  by rewrite Hknown, Hloads, Hpre, Hrun, Hpost.
Qed.

(** When the three calls return, the result of [run_task] is handed to
    [set_result] in one call, a failure of that call is logged, and the
    handling ends normally. *)
Lemma handle_message_through (message : BrokerMessage)
    (task : AsyncTaskiqDecoratedTask) (decoded taskiq_msg taskiq_msg' : TaskiqMessage)
    (events : list event) (result : TaskiqResult) :
  available_tasks broker !! bm_task_name message = Some task ->
  formatter_loads broker message = Ret decoded ->
  run_pre_execute (middlewares broker) decoded = Ret taskiq_msg ->
  run_task parse_obj_as (original_func task)
    (task_signatures !! bm_task_name message) taskiq_msg
    (log_collector_format cli_args) (Some (middlewares broker))
  = (events, taskiq_msg', Ret result) ->
  run_post_execute (middlewares broker) taskiq_msg' result = Ret tt ->
  handle_message parse_obj_as broker cli_args task_signatures message
  = (events ++ Call_set_result (bm_task_id message) result ::
       match result_backend_set_result broker (bm_task_id message) result with
       | Ret _ => []
       | Raise e => [Exception_cannot_set_result e]
       end, None) ∧
  set_result_calls
    (handle_message parse_obj_as broker cli_args task_signatures message).1
  = [(bm_task_id message, result)] ∧
  target_calls
    (handle_message parse_obj_as broker cli_args task_signatures message).1
  = [(args taskiq_msg', kwargs taskiq_msg')].
Proof.
  intros Hknown Hloads Hpre Hrun Hpost.
  destruct (run_task_calls_target_once _ _ _ _ _ _ _ _ Hrun) as [Hcalls Hsets].
  assert (Heq : handle_message parse_obj_as broker cli_args task_signatures message
    = (events ++ Call_set_result (bm_task_id message) result ::
         match result_backend_set_result broker (bm_task_id message) result with
         | Ret _ => []
         | Raise e => [Exception_cannot_set_result e]
         end, None)).
  { unfold handle_message. rewrite Hknown, Hloads, Hpre, Hrun, Hpost.
    destruct (result_backend_set_result _ _ _); [done|]. by rewrite <- app_assoc. }
  rewrite Heq. split; [done|].
  unfold set_result_calls, target_calls in *. simpl.
  rewrite !omap_app, Hcalls, Hsets. simpl.
  by destruct (result_backend_set_result _ _ _).
Qed.

(** The converse: a call of [set_result] means that the three calls
    returned. *)
Lemma handle_message_set_result_only_through (message : BrokerMessage) :
  set_result_calls
    (handle_message parse_obj_as broker cli_args task_signatures message).1 ≠ [] ->
  ∃ task decoded taskiq_msg events taskiq_msg' result,
    available_tasks broker !! bm_task_name message = Some task ∧
    formatter_loads broker message = Ret decoded ∧
    run_pre_execute (middlewares broker) decoded = Ret taskiq_msg ∧
    run_task parse_obj_as (original_func task)
      (task_signatures !! bm_task_name message) taskiq_msg
      (log_collector_format cli_args) (Some (middlewares broker))
    = (events, taskiq_msg', Ret result) ∧
    run_post_execute (middlewares broker) taskiq_msg' result = Ret tt.
Proof.
  unfold handle_message.
  destruct (available_tasks broker !! bm_task_name message) as [task|]; [|done].
  destruct (formatter_loads broker message) as [decoded|e]; [|done].
  destruct (run_pre_execute (middlewares broker) decoded) as [taskiq_msg|e] eqn:Hpre;
    [|done].
  destruct (run_task _ _ _ _ _ _) as [[events taskiq_msg'] [result|f]] eqn:Hrun.
  - destruct (run_post_execute _ _ _) as [[]|e] eqn:Hpost.
    + intros _. by exists task, decoded, taskiq_msg, events, taskiq_msg', result.
    + simpl. intros Hcalls. exfalso. apply Hcalls.
      rewrite run_task_eq in Hrun. revert Hrun.
      destruct (parse_params _ _ _) as [m [e'|]]; simpl; [discriminate|].
      destruct (awaited _ _) as [v|[e'|s|]]; [| |discriminate..].
      * by intros [= <- _ _].
      * destruct (run_on_error _ _ _ _); [|discriminate]. by intros [= <- _ _].
  - simpl. intros Hcalls. exfalso. apply Hcalls.
    rewrite run_task_eq in Hrun. revert Hrun.
    destruct (parse_params _ _ _) as [m [e'|]]; simpl; [by intros [= <- _ _]|].
    destruct (awaited _ _) as [v|[e'|s|]]; [discriminate| |by intros [= <- _ _]..].
    destruct (run_on_error _ _ _ _); [discriminate|]. by intros [= <- _ _].
Qed.

(** A message of a registered task that decodes, when no hook raises,
    the conversion fails softly and the task function settles: the
    three calls return. *)
Lemma handle_message_known (message : BrokerMessage)
    (task : AsyncTaskiqDecoratedTask) (decoded : TaskiqMessage) :
  available_tasks broker !! bm_task_name message = Some task ->
  formatter_loads broker message = Ret decoded ->
  fails_softly parse_obj_as ->
  hooks_quiet (middlewares broker) ->
  settles (original_func task) ->
  ∃ taskiq_msg events taskiq_msg' result,
    run_pre_execute (middlewares broker) decoded = Ret taskiq_msg ∧
    run_task parse_obj_as (original_func task)
      (task_signatures !! bm_task_name message) taskiq_msg
      (log_collector_format cli_args) (Some (middlewares broker))
    = (events, taskiq_msg', Ret result) ∧
    run_post_execute (middlewares broker) taskiq_msg' result = Ret tt.
Proof.
  intros Hknown Hloads Hsoft (Hpre & Herr & Hpost) Hsettles.
  destruct (run_pre_execute_quiet _ decoded Hpre) as [taskiq_msg Hrun_pre].
  destruct (run_task_total parse_obj_as (original_func task)
              (task_signatures !! bm_task_name message) taskiq_msg
              (log_collector_format cli_args) (Some (middlewares broker)) Hsoft Herr)
    as (events & result & Hrun); [apply Hsettles|].
  eexists taskiq_msg, events, _, result.
  split; [done|]. split; [exact Hrun|].
  by apply run_post_execute_quiet.
Qed.

Lemma handle_message_continues (message : BrokerMessage) :
  fails_softly parse_obj_as ->
  hooks_quiet (middlewares broker) ->
  tasks_settle broker ->
  (handle_message parse_obj_as broker cli_args task_signatures message).2 = None.
Proof.
  intros Hsoft Hquiet Hsettle.
  destruct (available_tasks broker !! bm_task_name message) as [task|] eqn:Hknown;
    [|by unfold handle_message; rewrite Hknown].
  destruct (formatter_loads broker message) as [decoded|e] eqn:Hloads;
    [|by unfold handle_message; rewrite Hknown, Hloads].
  destruct (handle_message_known message task decoded Hknown Hloads Hsoft Hquiet)
    as (taskiq_msg & events & taskiq_msg' & result & Hpre & Hrun & Hpost);
    [by eapply Hsettle|].
  destruct (handle_message_through message task decoded taskiq_msg taskiq_msg' events
              result Hknown Hloads Hpre Hrun Hpost) as [-> _]. done.
Qed.

(** The loop over a stream whose messages all let it go on. *)
Lemma listen_loop_all_continue (stream : list BrokerMessage) :
  (∀ message, message ∈ stream ->
     (handle_message parse_obj_as broker cli_args task_signatures message).2 = None) ->
  listen_loop parse_obj_as broker cli_args task_signatures stream
  = (concat ((λ message,
        (handle_message parse_obj_as broker cli_args task_signatures message).1)
      <$> stream), None).
Proof.
  induction stream as [|message rest IH]; intros Hall; simpl; [done|].
  pose proof (Hall message (list_elem_of_here _ _)) as Hcont.
  destruct (handle_message _ _ _ _ message) as [events r]. simpl in *. subst r.
  rewrite IH; [done|]. intros m Hm. apply Hall. by right.
Qed.

(** The loop stops at the first message whose handling does not end
    normally: the messages after it are not handled. *)
Lemma listen_loop_stops_at (s1 s2 : list BrokerMessage) (message : BrokerMessage)
    (f : failure) :
  (∀ m, m ∈ s1 ->
     (handle_message parse_obj_as broker cli_args task_signatures m).2 = None) ->
  (handle_message parse_obj_as broker cli_args task_signatures message).2 = Some f ->
  listen_loop parse_obj_as broker cli_args task_signatures (s1 ++ message :: s2)
  = (concat ((λ m,
        (handle_message parse_obj_as broker cli_args task_signatures m).1) <$> s1)
     ++ (handle_message parse_obj_as broker cli_args task_signatures message).1,
     Some f).
Proof.
  intros Hall Hstop.
  induction s1 as [|m rest IH]; simpl.
  - destruct (handle_message _ _ _ _ message) as [events r]. simpl in *. by subst r.
  - pose proof (Hall m (list_elem_of_here _ _)) as Hcont.
    destruct (handle_message _ _ _ _ m) as [events r]. simpl in *. subst r.
    rewrite IH; [by rewrite app_assoc|]. intros m' Hm'. apply Hall. by right.
Qed.

End LoopFacts.

(** The task functions of the examples that settle. *)
Lemma add_settles : settles Demo.add.
Proof.
  intros a k. unfold Demo.add, Demo.quiet. simpl.
  repeat (match goal with |- context [match ?x with _ => _ end] => destruct x end;
          simpl; try done).
Qed.

Lemma boom_settles : settles Demo.boom.
Proof. intros a k. reflexivity. Qed.

(** C2 as the claim states it fails: the formatter cannot decode the
    message, its task is not registered, and the loop reports the
    unknown task, not the decoding failure. *)
Lemma undecodable_unknown_reported_as_unknown :
  let broker := Demo.broker_with ∅ Demo.loads [] in
  let message := Demo.garbled "1" "ghost" in
  formatter_loads broker message = Raise (Exc ValueError "cannot decode") ∧
  handle_message Demo.pydantic broker Demo.cli ∅ message
  = ([Warning_task_not_found "ghost"], None).
Proof. split; reflexivity. Qed.

(** C2 (amended).  The loop looks the task name of the raw message up
    in the registry first and decodes afterwards: a message of an
    unknown task is logged as such and skipped, whatever the formatter
    would do with it; a message that fails to decode is logged and
    skipped as a decoding failure when its task is registered. *)
Theorem handle_message_registry_then_decode
    (parse_obj_as : annot -> value -> res value) (broker : AsyncBroker)
    (cli_args : TaskiqArgs) (task_signatures : gmap string Signature)
    (message : BrokerMessage) :
  (available_tasks broker !! bm_task_name message = None ->
   handle_message parse_obj_as broker cli_args task_signatures message
   = ([Warning_task_not_found (bm_task_name message)], None)) ∧
  (∀ e, is_Some (available_tasks broker !! bm_task_name message) ->
        formatter_loads broker message = Raise e ->
        handle_message parse_obj_as broker cli_args task_signatures message
        = ([Warning_cannot_parse message e], None)).
Proof.
  unfold handle_message. split.
  - by intros ->.
  - intros e [task ->] ->. done.
Qed.

Lemma handle_message_registry_then_decode_witness :
  let broker := Demo.broker_with {[ "add" := Demo.add_task ]} Demo.loads [] in
  handle_message Demo.pydantic broker Demo.cli ∅ (Demo.garbled "1" "ghost")
  = ([Warning_task_not_found "ghost"], None) ∧
  handle_message Demo.pydantic broker Demo.cli ∅ (Demo.garbled "2" "add")
  = ([Warning_cannot_parse (Demo.garbled "2" "add") (Exc ValueError "cannot decode")], None).
Proof.
  intros broker. split.
  - apply (handle_message_registry_then_decode Demo.pydantic broker Demo.cli ∅
             (Demo.garbled "1" "ghost")). reflexivity.
  - apply (handle_message_registry_then_decode Demo.pydantic broker Demo.cli ∅
             (Demo.garbled "2" "add")); [|reflexivity].
    exists Demo.add_task. reflexivity.
Defined.

(** C3 as the claim states it fails: the [pre_execute] hook raises on
    the first message, the exception leaves [async_listen_messages] and
    the second message is never handled. *)
Lemma pre_execute_failure_stops_loop :
  async_listen_messages Demo.pydantic
    (Demo.broker_with {[ "add" := Demo.add_task ]} Demo.loads [Demo.failing_pre])
    Demo.cli [Demo.raw "1" "add"; Demo.raw "2" "add"]
  = ([], Some (Exception (Exc (OtherError "HookError") "pre_execute"))).
Proof. reflexivity. Qed.

(** C3 (amended).  What the loop contains and what ends it.
    Contained: a message of an unknown task, a decoding error, an
    [Exception] of the task function, a conversion failing with
    [ValueError] or [RuntimeError], an error of [set_result]: when no
    middleware hook raises, the conversion fails with those two classes
    only and every task function settles (it returns or raises an
    [Exception]: no [SystemExit] or cancellation, no call that never
    returns, no [StopIteration] from a synchronous function), the loop
    handles every message of the stream and ends normally.  Not
    contained: the loop stops at the first message whose handling does
    not end normally, without handling the messages after it, and the
    handling of a message of a registered task that decodes does not end
    normally when a [pre_execute] hook raises, when [run_task] raises or
    never returns, or when a [post_execute] hook raises. *)
Theorem listen_loop_isolates_errors
    (parse_obj_as : annot -> value -> res value) (broker : AsyncBroker)
    (cli_args : TaskiqArgs) (task_signatures : gmap string Signature) :
  let handle := handle_message parse_obj_as broker cli_args task_signatures in
  let loop := listen_loop parse_obj_as broker cli_args task_signatures in
  (fails_softly parse_obj_as -> hooks_quiet (middlewares broker) ->
   tasks_settle broker ->
   ∀ stream, loop stream = (concat ((λ message, (handle message).1) <$> stream), None)) ∧
  (∀ s1 message s2 f,
     (∀ m, m ∈ s1 -> (handle m).2 = None) -> (handle message).2 = Some f ->
     loop (s1 ++ message :: s2)
     = (concat ((λ m, (handle m).1) <$> s1) ++ (handle message).1, Some f)) ∧
  (∀ message task decoded,
     available_tasks broker !! bm_task_name message = Some task ->
     formatter_loads broker message = Ret decoded ->
     match run_pre_execute (middlewares broker) decoded with
     | Raise e => handle message = ([], Some (Exception e))
     | Ret taskiq_msg =>
       match run_task parse_obj_as (original_func task)
               (task_signatures !! bm_task_name message) taskiq_msg
               (log_collector_format cli_args) (Some (middlewares broker)) with
       | (events, _, Raise f) => handle message = (events, Some f)
       | (events, taskiq_msg', Ret result) =>
         match run_post_execute (middlewares broker) taskiq_msg' result with
         | Raise e => handle message = (events, Some (Exception e))
         | Ret _ => (handle message).2 = None
         end
       end
     end).
Proof.
  intros handle loop. subst handle loop. split; [|split].
  - intros Hsoft Hquiet Hsettle stream.
    apply listen_loop_all_continue. intros message _.
    by apply handle_message_continues.
  - intros s1 message s2 f Hall Hstop. by apply listen_loop_stops_at.
  - intros message task decoded Hknown Hloads.
    destruct (run_pre_execute _ _) as [taskiq_msg|e] eqn:Hpre;
      [|by eapply handle_message_pre_raises].
    destruct (run_task _ _ _ _ _ _) as [[events taskiq_msg'] [result|f]] eqn:Hrun;
      [|by eapply handle_message_run_task_fails].
    destruct (run_post_execute _ _ _) as [[]|e] eqn:Hpost;
      [|by eapply handle_message_post_raises].
    by destruct (handle_message_through parse_obj_as broker cli_args task_signatures
                   message task decoded taskiq_msg taskiq_msg' events result
                   Hknown Hloads Hpre Hrun Hpost) as [-> _].
Qed.

Lemma listen_loop_isolates_errors_witness :
  (* an undecodable message, an unknown task, a failing task and a
     failing backend are contained *)
  (listen_loop Demo.pydantic
     (Demo.broker_backend_down
        {[ "add" := Demo.add_task; "boom" := Demo.boom_task ]} Demo.loads [Demo.plain])
     Demo.cli ∅
     [Demo.garbled "1" "add"; Demo.raw "2" "ghost"; Demo.raw "3" "boom";
      Demo.raw "4" "add"]).2
  = None ∧
  (* a task that calls [sys.exit] ends the loop at its message *)
  (listen_loop Demo.pydantic
     (Demo.broker_with
        {[ "add" := Demo.add_task; "exits" := Demo.exits_task ]} Demo.loads [Demo.plain])
     Demo.cli ∅
     [Demo.raw "1" "ghost"; Demo.raw "2" "exits"; Demo.raw "3" "add"])
  = ([Warning_task_not_found "ghost"; Call_target [VStr "2"; VStr "3"] ∅],
     Some (Escape (SystemExit 3))) ∧
  (* a raising [pre_execute] hook ends the handling of the message *)
  handle_message Demo.pydantic
    (Demo.broker_with {[ "add" := Demo.add_task ]} Demo.loads [Demo.failing_pre])
    Demo.cli ∅ (Demo.raw "1" "add")
  = ([], Some (Exception (Exc (OtherError "HookError") "pre_execute"))).
Proof.
  split; [|split].
  - pose proof (listen_loop_isolates_errors Demo.pydantic
      (Demo.broker_backend_down
         {[ "add" := Demo.add_task; "boom" := Demo.boom_task ]} Demo.loads [Demo.plain])
      Demo.cli ∅) as (Hcontained & _).
    rewrite Hcontained; [reflexivity|apply pydantic_fails_softly| |].
    + repeat split; repeat constructor.
    + intros name task Hk. simpl in Hk.
      apply lookup_insert_Some in Hk as [[_ <-]|[_ Hk]]; [apply add_settles|].
      apply lookup_singleton_Some in Hk as [_ <-]. apply boom_settles.
  - pose proof (listen_loop_isolates_errors Demo.pydantic
      (Demo.broker_with
         {[ "add" := Demo.add_task; "exits" := Demo.exits_task ]} Demo.loads [Demo.plain])
      Demo.cli ∅) as (_ & Hstops & _).
    apply (Hstops [Demo.raw "1" "ghost"] (Demo.raw "2" "exits") [Demo.raw "3" "add"]
             (Escape (SystemExit 3))); [|reflexivity].
    intros m Hm. apply list_elem_of_singleton in Hm as ->. reflexivity.
  - pose proof (listen_loop_isolates_errors Demo.pydantic
      (Demo.broker_with {[ "add" := Demo.add_task ]} Demo.loads [Demo.failing_pre])
      Demo.cli ∅) as (_ & _ & Hsteps).
    exact (Hsteps (Demo.raw "1" "add") Demo.add_task _ eq_refl eq_refl).
Defined.

(** C8 as the claim states it fails: the task is registered and the
    message decodes, but a [pre_execute] hook raises, so the task
    function is not called, no result is produced and [set_result] is not
    called. *)
Lemma known_decodable_message_without_result :
  let broker :=
    Demo.broker_with {[ "add" := Demo.add_task ]} Demo.loads [Demo.failing_pre] in
  let message := Demo.raw "1" "add" in
  let r := handle_message Demo.pydantic broker Demo.cli ∅ message in
  available_tasks broker !! bm_task_name message = Some Demo.add_task ∧
  raised (formatter_loads broker message) = false ∧
  target_calls r.1 = [] ∧ set_result_calls r.1 = [].
Proof. repeat split. Qed.

(** C8 (amended).  A message whose task is not registered, or that
    fails to decode, never reaches a task function and never causes a
    call of [set_result].  For a message of a registered task that
    decodes, [set_result] is called exactly when the [pre_execute] hooks,
    [run_task] and the [post_execute] hooks have all returned: there is
    then exactly one result, the one [run_task] returned from one call of
    the task function, and exactly one call of [set_result], with the
    task id of the message and that result; when one of the three raises
    or never returns, [set_result] is not called.  The three return
    whenever no middleware hook raises, the conversion of parameters
    fails with [ValueError] or [RuntimeError] only and the task function
    settles. *)
Theorem handle_message_results
    (parse_obj_as : annot -> value -> res value) (broker : AsyncBroker)
    (cli_args : TaskiqArgs) (task_signatures : gmap string Signature)
    (message : BrokerMessage) :
  let r := handle_message parse_obj_as broker cli_args task_signatures message in
  let through task decoded taskiq_msg events taskiq_msg' result :=
    available_tasks broker !! bm_task_name message = Some task ∧
    formatter_loads broker message = Ret decoded ∧
    run_pre_execute (middlewares broker) decoded = Ret taskiq_msg ∧
    run_task parse_obj_as (original_func task)
      (task_signatures !! bm_task_name message) taskiq_msg
      (log_collector_format cli_args) (Some (middlewares broker))
    = (events, taskiq_msg', Ret result) ∧
    run_post_execute (middlewares broker) taskiq_msg' result = Ret tt in
  (available_tasks broker !! bm_task_name message = None ∨
   raised (formatter_loads broker message) = true ->
   (r.1 = [Warning_task_not_found (bm_task_name message)] ∨
    ∃ e, r.1 = [Warning_cannot_parse message e]) ∧
   target_calls r.1 = [] ∧ set_result_calls r.1 = [] ∧ r.2 = None) ∧
  (∀ task decoded taskiq_msg events taskiq_msg' result,
     through task decoded taskiq_msg events taskiq_msg' result ->
     r.2 = None ∧
     set_result_calls r.1 = [(bm_task_id message, result)] ∧
     target_calls r.1 = [(args taskiq_msg', kwargs taskiq_msg')]) ∧
  (set_result_calls r.1 ≠ [] ->
   ∃ task decoded taskiq_msg events taskiq_msg' result,
     through task decoded taskiq_msg events taskiq_msg' result) ∧
  (∀ task decoded,
     available_tasks broker !! bm_task_name message = Some task ->
     formatter_loads broker message = Ret decoded ->
     fails_softly parse_obj_as ->
     hooks_quiet (middlewares broker) ->
     settles (original_func task) ->
     ∃ taskiq_msg events taskiq_msg' result,
       through task decoded taskiq_msg events taskiq_msg' result).
Proof.
  intros r through. split; [|split; [|split]].
  - subst r. unfold handle_message. intros [Hunknown|Hdecode].
    + rewrite Hunknown. simpl. eauto.
    + destruct (available_tasks broker !! bm_task_name message); [|simpl; eauto].
      destruct (formatter_loads broker message); [discriminate|simpl; eauto 6].
  - intros task decoded taskiq_msg events taskiq_msg' result
      (Hknown & Hloads & Hpre & Hrun & Hpost).
    destruct (handle_message_through parse_obj_as broker cli_args task_signatures
                message task decoded taskiq_msg taskiq_msg' events result
                Hknown Hloads Hpre Hrun Hpost) as (Heq & Hsets & Hcalls).
    subst r. split; [by rewrite Heq|]. by split.
  - apply handle_message_set_result_only_through.
  - intros task decoded Hknown Hloads Hsoft Hquiet Hsettles.
    destruct (handle_message_known parse_obj_as broker cli_args task_signatures
                message task decoded Hknown Hloads Hsoft Hquiet Hsettles)
      as (taskiq_msg & events & taskiq_msg' & result & Hpre & Hrun & Hpost).
    by exists taskiq_msg, events, taskiq_msg', result.
Qed.

Lemma handle_message_results_witness :
  let broker :=
    Demo.broker_backend_down {[ "add" := Demo.add_task ]} Demo.loads [Demo.plain] in
  (set_result_calls
     (handle_message Demo.pydantic broker Demo.cli ∅ (Demo.raw "1" "ghost")).1 = [] ∧
   set_result_calls
     (handle_message Demo.pydantic broker Demo.cli ∅ (Demo.garbled "2" "add")).1 = []) ∧
  ∃ result,
    set_result_calls
      (handle_message Demo.pydantic broker Demo.cli
         (build_task_signatures broker Demo.cli) (Demo.raw "3" "add")).1
    = [("3", result)] ∧
    return_value result = VInt 5.
Proof.
  intros broker. split; [split|].
  - apply (handle_message_results Demo.pydantic broker Demo.cli ∅ (Demo.raw "1" "ghost")).
    left. reflexivity.
  - apply (handle_message_results Demo.pydantic broker Demo.cli ∅ (Demo.garbled "2" "add")).
    right. reflexivity.
  - destruct (handle_message_results Demo.pydantic broker Demo.cli
                (build_task_signatures broker Demo.cli) (Demo.raw "3" "add"))
      as (_ & Hthrough & Honly & Hsuff).
    destruct (Hsuff Demo.add_task
                {| task_id := "3"; task_name := "add"; labels := ∅;
                   args := [VStr "2"; VStr "3"]; kwargs := ∅ |})
      as (taskiq_msg & events & taskiq_msg' & result & Hall).
    + reflexivity.
    + reflexivity.
    + apply pydantic_fails_softly.
    + repeat split; repeat constructor.
    + apply add_settles.
    + destruct (Hthrough _ _ _ _ _ _ Hall) as (_ & Hset & _).
      exists result. split; [exact Hset|].
      destruct Hall as (_ & _ & Hpre & Hrun & _).
      injection Hpre as <-.
      vm_compute in Hrun. by injection Hrun as _ _ <-.
Defined.

(** * Further properties of the module *)

(** ** parse_params *)

Section CoercerMore.

Variable parse_obj_as : annot -> value -> res value.

(** A parameter that the loop does not look up by name leaves the
    keyword argument of that name alone. *)
Lemma parse_loop_kwarg_other (params : Signature) (argnum : Z) (message : TaskiqMessage)
    (key : string) :
  (∀ p, p ∈ params -> is_Some (annotation p) -> param_name p ≠ key) ->
  kwargs (parse_loop parse_obj_as params argnum message).1 !! key
  = kwargs message !! key.
Proof.
  revert argnum message.
  induction params as [|p rest IH]; intros argnum message Hother; simpl; [done|].
  assert (Hrest : ∀ q, q ∈ rest -> is_Some (annotation q) -> param_name q ≠ key)
    by (intros q Hq; apply Hother; by right).
  destruct (annotation p) as [a|] eqn:Ha; [|by apply IH].
  assert (Hp : param_name p ≠ key) by (apply Hother; [by left|by rewrite Ha]).
  destruct (Z.leb_spec (Z.of_nat (length (args message))) (argnum + 1)) as [Hge|Hlt].
  - case_bool_decide; [by apply IH|].
    destruct (parse_obj_as a _) as [parsed|e].
    + rewrite IH by done. simpl. by apply lookup_insert_ne.
    + destruct (is_ValueError_or_RuntimeError e); [by apply IH|done].
  - destruct (getitem (args message) (argnum + 1)) as [w|e]; [|done].
    case_bool_decide; [by apply IH|].
    destruct (parse_obj_as a w) as [parsed|e].
    + destruct (setitem (args message) (argnum + 1) parsed); [|done].
      by rewrite IH.
    + destruct (is_ValueError_or_RuntimeError e); [by apply IH|done].
Qed.

(** Once the counter is past the positional arguments, every annotated
    parameter is looked up by name, and its keyword argument is converted
    under its own annotation. *)
Lemma parse_loop_keywords (params : Signature) (k : nat) (message : TaskiqMessage)
    (p : SigParameter) (a : annot) :
  fails_softly parse_obj_as ->
  NoDup (param_name <$> params) ->
  (length (args message) <= k)%nat ->
  p ∈ params -> annotation p = Some a ->
  kwargs (parse_loop parse_obj_as params (Z.of_nat k - 1) message).1 !! param_name p
  = coerced parse_obj_as a <$> kwargs message !! param_name p.
Proof.
  intros Hsoft. revert k message.
  induction params as [|q rest IH]; intros k message Hnodup Hlen Hp Ha.
  { by apply elem_of_nil in Hp. }
  simpl in Hnodup. apply NoDup_cons in Hnodup as [Hq Hnodup].
  simpl.
  assert (Hfresh : ∀ r, r ∈ rest -> param_name r ≠ param_name q).
  { intros r Hr Heq. apply Hq. rewrite <- Heq. by apply list_elem_of_fmap_2. }
  apply elem_of_cons in Hp as [->|Hp].
  - (* the parameter at the head of the loop *)
    rewrite Ha.
    replace (Z.of_nat k - 1 + 1) with (Z.of_nat (S k) - 1) by lia.
    destruct (Z.leb_spec (Z.of_nat (length (args message))) (Z.of_nat (S k) - 1)) as [_|?];
      [|lia].
    assert (Hafter : ∀ m',
      kwargs (parse_loop parse_obj_as rest (Z.of_nat (S k) - 1) m').1 !! param_name q
      = kwargs m' !! param_name q).
    { intros m'. apply parse_loop_kwarg_other. intros r Hr _. by apply Hfresh. }
    unfold coerced, dict_get.
    destruct (kwargs message !! param_name q) as [v|] eqn:Hv; simpl.
    + case_bool_decide; [by rewrite Hafter, Hv|].
      destruct (parse_obj_as a v) as [parsed|e] eqn:Hparse.
      * rewrite Hafter. simpl. by rewrite lookup_insert_eq.
      * rewrite (Hsoft _ _ _ Hparse). by rewrite Hafter, Hv.
    + by rewrite Hafter, Hv.
  - (* a parameter further down *)
    assert (Hne : param_name q ≠ param_name p) by (intros Heq; by apply (Hfresh p)).
    destruct (annotation q) as [b|]; [|by apply IH].
    replace (Z.of_nat k - 1 + 1) with (Z.of_nat (S k) - 1) by lia.
    destruct (Z.leb_spec (Z.of_nat (length (args message))) (Z.of_nat (S k) - 1)) as [_|?];
      [|lia].
    case_bool_decide; [apply IH; [done|lia|done..]|].
    destruct (parse_obj_as b _) as [parsed|e] eqn:Hparse.
    + rewrite IH; [|done|simpl; lia|done..]. simpl.
      by rewrite lookup_insert_ne.
    + rewrite (Hsoft _ _ _ Hparse). apply IH; [done|lia|done..].
Qed.

End CoercerMore.

(** X1.  [parse_params] only replaces values: whatever the signature
    and whether or not it raises, the message keeps its task id, its task
    name, its labels, the number of its positional arguments and the keys
    of its keyword arguments. *)
Theorem parse_params_keeps_shape
    (parse_obj_as : annot -> value -> res value)
    (signature : option Signature) (message : TaskiqMessage) :
  let message' := (parse_params parse_obj_as signature message).1 in
  task_id message' = task_id message ∧
  task_name message' = task_name message ∧
  labels message' = labels message ∧
  length (args message') = length (args message) ∧
  dom (kwargs message') = dom (kwargs message).
Proof.
  intros message'.
  destruct (parse_params_mutations parse_obj_as signature message) as [Hrtc _].
  by apply mutations_frame in Hrtc.
Qed.

(** X2.  [parse_params] never converts [None]: a positional or keyword
    argument that is [None] is still [None] afterwards, whatever type is
    declared for it. *)
Theorem parse_params_keeps_none
    (parse_obj_as : annot -> value -> res value)
    (signature : option Signature) (message : TaskiqMessage) :
  let message' := (parse_params parse_obj_as signature message).1 in
  (∀ i, args message !! i = Some VNone -> args message' !! i = Some VNone) ∧
  (∀ k, kwargs message !! k = Some VNone -> kwargs message' !! k = Some VNone).
Proof.
  intros message'.
  destruct (parse_params_frame parse_obj_as signature message) as (_ & _ & Hargs & Hkw & _).
  by split.
Qed.

Lemma parse_params_keeps_none_witness :
  let message := Demo.msg [VNone; VStr "3"] {[ "c" := VNone ]} in
  let message' :=
    (parse_params Demo.pydantic (Some Demo.add_signature) message).1 in
  args message' !! 0%nat = Some VNone ∧ kwargs message' !! "c" = Some VNone.
Proof.
  intros message message'.
  pose proof (parse_params_keeps_none Demo.pydantic (Some Demo.add_signature) message)
    as [Hargs Hkw].
  split; [apply Hargs|apply Hkw]; reflexivity.
Defined.

(** X3.  For a signature in which every parameter is annotated, and a
    conversion that fails with [ValueError] or [RuntimeError] only, the
    positional argument at index [i] ends as the conversion of the
    original under the annotation of the parameter at position [i]: the
    parsed value when the conversion accepts it, the original when it is
    [None], when the conversion rejects it or when the signature has no
    parameter at that position. *)
Theorem parse_params_positional
    (parse_obj_as : annot -> value -> res value)
    (sig : Signature) (message : TaskiqMessage) (i : nat) (v : value) :
  fails_softly parse_obj_as ->
  Forall (λ p, is_Some (annotation p)) sig ->
  args message !! i = Some v ->
  args (parse_params parse_obj_as (Some sig) message).1 !! i
  = Some (match sig !! i with
          | Some p => from_option (λ a, coerced parse_obj_as a v) v (annotation p)
          | None => v
          end).
Proof. apply parse_params_positional_all_annotated. Qed.

Lemma parse_params_positional_witness :
  args (parse_params Demo.pydantic (Some Demo.add_signature)
          (Demo.msg [VStr "x"; VStr "3"; VStr "4"] ∅)).1 !! 1%nat
  = Some (VInt 3).
Proof.
  apply (parse_params_positional Demo.pydantic Demo.add_signature
           (Demo.msg [VStr "x"; VStr "3"; VStr "4"] ∅) 1 (VStr "3")).
  - apply pydantic_fails_softly.
  - repeat constructor; by eexists.
  - reflexivity.
Defined.

(** X4.  A call made with keyword arguments only: when the message has
    no positional argument and the parameters have distinct names (as
    in every Python signature), the keyword argument of each annotated
    parameter ends as its conversion under that parameter's annotation,
    and a missing keyword argument stays missing. *)
Theorem parse_params_keywords_only
    (parse_obj_as : annot -> value -> res value)
    (sig : Signature) (message : TaskiqMessage) (p : SigParameter) (a : annot) :
  fails_softly parse_obj_as ->
  NoDup (param_name <$> sig) ->
  args message = [] ->
  p ∈ sig -> annotation p = Some a ->
  kwargs (parse_params parse_obj_as (Some sig) message).1 !! param_name p
  = coerced parse_obj_as a <$> kwargs message !! param_name p.
Proof.
  intros Hsoft Hnodup Hargs Hp Ha.
  apply (parse_loop_keywords parse_obj_as sig 0 message p a); try done.
  rewrite Hargs. simpl. lia.
Qed.

Lemma parse_params_keywords_only_witness :
  (parse_params Demo.pydantic (Some Demo.scale_signature)
          (Demo.msg [] {[ "a" := VStr "1"; "b" := VStr "2" ]})).1
  = Demo.msg [] {[ "a" := VStr "1"; "b" := VInt 2 ]} ∧
  kwargs (parse_params Demo.pydantic (Some Demo.scale_signature)
          (Demo.msg [] {[ "a" := VStr "1"; "b" := VStr "2" ]})).1 !! "b"
  = Some (VInt 2).
Proof.
  split; [reflexivity|].
  assert (Hnames : NoDup (param_name <$> Demo.scale_signature)).
  { apply NoDup_cons_2; [|apply NoDup_singleton].
    intros Hin. apply list_elem_of_singleton in Hin. discriminate. }
  assert (Hb : {| param_name := "b"; annotation := Some AInt |} ∈ Demo.scale_signature)
    by (right; left).
  exact (parse_params_keywords_only Demo.pydantic Demo.scale_signature
           (Demo.msg [] {[ "a" := VStr "1"; "b" := VStr "2" ]})
           {| param_name := "b"; annotation := Some AInt |} AInt
           pydantic_fails_softly Hnames eq_refl Hb eq_refl).
Defined.

(** ** run_task *)

(** X6.  The middlewares matter to [run_task] only when the task
    function raised: when it returns, [run_task] gives the same events,
    message and result whatever middlewares it is given, none of their
    [on_error] hooks being called. *)
Theorem run_task_success_ignores_middlewares
    (parse_obj_as : annot -> value -> res value) (target : Target)
    (signature : option Signature) (message : TaskiqMessage)
    (log_collector_format : string) (mws mws' : option (list TaskiqMiddleware)) :
  (let message' := (parse_params parse_obj_as signature message).1 in
   raised (outcome (call target (args message') (kwargs message'))) = false) ->
  run_task parse_obj_as target signature message log_collector_format mws
  = run_task parse_obj_as target signature message log_collector_format mws'.
Proof.
  intros Hret. rewrite !run_task_eq.
  destruct (parse_params parse_obj_as signature message) as [m [e|]]; [done|].
  simpl in *.
  destruct (outcome (call target (args m) (kwargs m))) as [v|f]; [done|discriminate].
Qed.

Lemma run_task_success_ignores_middlewares_witness :
  run_task Demo.pydantic Demo.add (Some Demo.add_signature)
    (Demo.msg [VStr "2"; VStr "3"] ∅) "" (Some [Demo.failing_on_error])
  = run_task Demo.pydantic Demo.add (Some Demo.add_signature)
      (Demo.msg [VStr "2"; VStr "3"] ∅) "" None.
Proof.
  apply run_task_success_ignores_middlewares. reflexivity.
Defined.

(** X7.  The [on_error] hooks run in the order of the list, each with
    the same message, result and exception, and the first one that
    raises ends the round: the round raises [e] exactly when some hook
    raises [e] and every hook before it in the list returned, and it
    returns exactly when every hook returns. *)
Theorem run_on_error_first_failure (middlewares : list TaskiqMiddleware)
    (message : TaskiqMessage) (result : TaskiqResult) (found_exception : exc) :
  (∀ e, run_on_error middlewares message result found_exception = Raise e
        ↔ ∃ before middleware after,
            middlewares = before ++ middleware :: after ∧
            Forall (λ mw, raised (on_error mw message result found_exception) = false)
                   before ∧
            on_error middleware message result found_exception = Raise e) ∧
  (run_on_error middlewares message result found_exception = Ret tt
   ↔ Forall (λ mw, raised (on_error mw message result found_exception) = false)
            middlewares).
Proof.
  split.
  - intros e. split.
    + induction middlewares as [|mw rest IH]; simpl; [done|].
      destruct (on_error mw message result found_exception) as [u|e'] eqn:Hmw.
      * intros Hrest. destruct (IH Hrest) as (before & middleware & after & -> & Hall & He).
        exists (mw :: before), middleware, after. split; [done|]. split; [|done].
        constructor; [by rewrite Hmw|done].
      * intros [= ->]. exists [], mw, rest. by repeat split.
    + intros (before & middleware & after & -> & Hall & He).
      induction Hall as [|mw before Hmw _ IH]; simpl; [by rewrite He|].
      by destruct (on_error mw message result found_exception).
  - split.
    + induction middlewares as [|mw rest IH]; simpl; [done|].
      destruct (on_error mw message result found_exception) as [u|e'] eqn:Hmw; [|done].
      intros Hrest. constructor; [by rewrite Hmw|by apply IH].
    + induction 1 as [|mw rest Hmw _ IH]; simpl; [done|].
      by destruct (on_error mw message result found_exception).
Qed.

(** ** Middleware hooks around a message *)

(** X8.  The [pre_execute] hooks are chained in the order of the list,
    each one receiving the message the one before it returned, and the
    first one that raises ends the chain: without hooks the message is
    returned as it is, one hook gives what that hook gives, the hooks of
    [l1 ++ l2] are those of [l1] and then those of [l2] on the message
    [l1] returned, and the chain raises [e] exactly when some hook raises
    [e] on the message the hooks before it returned. *)
Theorem run_pre_execute_chain (taskiq_msg : TaskiqMessage) :
  run_pre_execute [] taskiq_msg = Ret taskiq_msg ∧
  (∀ middleware, run_pre_execute [middleware] taskiq_msg
                 = pre_execute middleware taskiq_msg) ∧
  (∀ l1 l2, run_pre_execute (l1 ++ l2) taskiq_msg
            = match run_pre_execute l1 taskiq_msg with
              | Ret taskiq_msg' => run_pre_execute l2 taskiq_msg'
              | Raise e => Raise e
              end) ∧
  (∀ mws e, run_pre_execute mws taskiq_msg = Raise e
            ↔ ∃ before middleware after taskiq_msg',
                mws = before ++ middleware :: after ∧
                run_pre_execute before taskiq_msg = Ret taskiq_msg' ∧
                pre_execute middleware taskiq_msg' = Raise e).
Proof.
  assert (Happ : ∀ l1 l2 m,
    run_pre_execute (l1 ++ l2) m
    = match run_pre_execute l1 m with
      | Ret m' => run_pre_execute l2 m'
      | Raise e => Raise e
      end).
  { induction l1 as [|mw l1 IH]; intros l2 m; simpl; [done|].
    destruct (pre_execute mw m); [apply IH|done]. }
  split; [done|]. split.
  { intros mw. simpl. by destruct (pre_execute mw taskiq_msg). }
  split; [intros l1 l2; apply Happ|].
  intros mws e. split.
  - revert taskiq_msg.
    induction mws as [|mw rest IH]; intros m; simpl; [done|].
    destruct (pre_execute mw m) as [m1|e'] eqn:Hmw.
    + intros Hrest.
      destruct (IH m1 Hrest) as (before & middleware & after & m' & -> & Hbefore & He).
      exists (mw :: before), middleware, after, m'. simpl. by rewrite Hmw.
    + intros [= ->]. by exists [], mw, rest, m.
  - intros (before & middleware & after & m' & -> & Hbefore & He).
    rewrite Happ, Hbefore. simpl. by rewrite He.
Qed.

(** ** Signatures computed at startup *)

Lemma foldl_signatures_no_parse (cli_args : TaskiqArgs)
    (tasks : list AsyncTaskiqDecoratedTask) (acc : gmap string Signature) :
  no_parse cli_args = true ->
  foldl (λ task_signatures task,
           if negb (no_parse cli_args)
           then <[decorated_task_name task := func_signature task]> task_signatures
           else task_signatures) acc tasks
  = acc.
Proof.
  intros Hno. revert acc.
  induction tasks as [|t rest IH]; intros acc; simpl; [done|].
  rewrite IH. by rewrite Hno.
Qed.

Lemma foldl_signatures_lookup (cli_args : TaskiqArgs)
    (entries : list (string * AsyncTaskiqDecoratedTask)) (acc : gmap string Signature)
    (key : string) :
  no_parse cli_args = false ->
  NoDup entries.*1 ->
  (∀ k t, (k, t) ∈ entries -> decorated_task_name t = k) ->
  foldl (λ task_signatures task,
           if negb (no_parse cli_args)
           then <[decorated_task_name task := func_signature task]> task_signatures
           else task_signatures) acc entries.*2
  !! key
  = match (list_to_map entries : gmap string AsyncTaskiqDecoratedTask) !! key with
    | Some t => Some (func_signature t)
    | None => acc !! key
    end.
Proof.
  intros Hparse. revert acc.
  induction entries as [|[k t] rest IH]; intros acc Hnodup Hnames; csimpl; [done|].
  apply NoDup_cons in Hnodup as [Hk Hnodup].
  rewrite IH; [|done|intros k' t' Hin; apply Hnames; by right].
  assert (Hname : decorated_task_name t = k) by (apply Hnames; by left).
  rewrite Hparse, Hname. simpl.
  destruct (decide (k = key)) as [->|Hne].
  - rewrite (proj1 (not_elem_of_list_to_map rest key) Hk).
    by rewrite !lookup_insert_eq.
  - rewrite (lookup_insert_ne _ k key t) by done.
    destruct (list_to_map rest !! key); [done|]. by rewrite lookup_insert_ne.
Qed.

(** X9.  Without [--no-parse], and with a registry that files every
    task under its own task name, the worker knows the signature of
    exactly the registered tasks: the dictionary built at startup maps
    each registered name to the signature of that task's function, and
    no other name. *)
Theorem build_task_signatures_registry (broker : AsyncBroker) (cli_args : TaskiqArgs) :
  no_parse cli_args = false ->
  (∀ k t, available_tasks broker !! k = Some t -> decorated_task_name t = k) ->
  build_task_signatures broker cli_args = func_signature <$> available_tasks broker.
Proof.
  intros Hparse Hnames. apply map_eq. intros key.
  unfold build_task_signatures.
  rewrite (foldl_signatures_lookup cli_args (map_to_list (available_tasks broker)) ∅ key Hparse).
  - rewrite list_to_map_to_list, lookup_fmap, lookup_empty.
    by destruct (available_tasks broker !! key).
  - apply NoDup_fst_map_to_list.
  - intros k t Hin. apply Hnames. by apply elem_of_map_to_list.
Qed.

Lemma build_task_signatures_registry_witness :
  build_task_signatures
    (Demo.broker_with {[ "add" := Demo.add_task; "boom" := Demo.boom_task ]} Demo.loads [])
    Demo.cli
  !! "add" = Some Demo.add_signature.
Proof.
  rewrite build_task_signatures_registry; [reflexivity|reflexivity|].
  intros k t Hk. simpl in Hk.
  apply lookup_insert_Some in Hk as [[<- <-]|[_ Hk]]; [reflexivity|].
  apply lookup_singleton_Some in Hk as [<- <-]. reflexivity.
Defined.

(** X10.  With [--no-parse] the worker converts nothing: for a message
    of a registered task that decodes, the task function is called
    exactly once, with the positional and keyword arguments of the
    message as the last [pre_execute] hook returned it. *)
Theorem no_parse_passes_arguments_through
    (parse_obj_as : annot -> value -> res value) (broker : AsyncBroker)
    (cli_args : TaskiqArgs) (message : BrokerMessage)
    (decoded taskiq_msg : TaskiqMessage) :
  no_parse cli_args = true ->
  registered broker message ->
  formatter_loads broker message = Ret decoded ->
  run_pre_execute (middlewares broker) decoded = Ret taskiq_msg ->
  target_calls
    (handle_message parse_obj_as broker cli_args
       (build_task_signatures broker cli_args) message).1
  = [(args taskiq_msg, kwargs taskiq_msg)].
Proof.
  intros Hno [task Hknown] Hloads Hpre.
  unfold build_task_signatures. rewrite foldl_signatures_no_parse by done.
  unfold handle_message. rewrite Hknown, Hloads, Hpre, lookup_empty.
  rewrite run_task_eq. simpl.
  destruct (awaited _ _) as [v|[e|s|]]; [| |done..].
  - destruct (run_post_execute _ _ _); [|done].
    by destruct (result_backend_set_result _ _ _).
  - destruct (run_on_error _ _ _ _); [|done].
    destruct (run_post_execute _ _ _); [|done].
    by destruct (result_backend_set_result _ _ _).
Qed.

Lemma no_parse_passes_arguments_through_witness :
  let cli_no_parse :=
    {| max_threadpool_threads := 10; no_parse := true; log_collector_format := "" |} in
  let broker := Demo.broker_with {[ "add" := Demo.add_task ]} Demo.loads [Demo.plain] in
  target_calls
    (handle_message Demo.pydantic broker cli_no_parse
       (build_task_signatures broker cli_no_parse) (Demo.raw "1" "add")).1
  = [([VStr "2"; VStr "3"], ∅)].
Proof.
  intros cli_no_parse broker.
  exact (no_parse_passes_arguments_through Demo.pydantic broker cli_no_parse
           (Demo.raw "1" "add") _ _ eq_refl (ex_intro _ Demo.add_task eq_refl)
           eq_refl eq_refl).
Defined.

(** ** The listen loop *)

Section LoopMore.

Variable parse_obj_as : annot -> value -> res value.
Variable broker : AsyncBroker.
Variable cli_args : TaskiqArgs.
Variable task_signatures : gmap string Signature.

(** The events of [run_task]: no call of the result backend, and at most
    one call of the task function. *)
Lemma run_task_events (target : Target) (signature : option Signature)
    (message : TaskiqMessage) (fmt : string) (mws : option (list TaskiqMiddleware)) :
  let events := (run_task parse_obj_as target signature message fmt mws).1.1 in
  set_result_calls events = [] ∧ (length (target_calls events) <= 1)%nat.
Proof.
  rewrite run_task_eq.
  destruct (parse_params parse_obj_as signature message) as [m [e|]]; simpl;
    [by split; [|lia]|].
  by destruct (awaited _ _) as [v|[e|s|]].
Qed.

(** What one message can cause: a call of the result backend only after
    a call of the task function, for a registered task whose message
    decoded, under the task id of the message; and at most one of each. *)
Lemma handle_message_calls (message : BrokerMessage) :
  let events :=
    (handle_message parse_obj_as broker cli_args task_signatures message).1 in
  (length (set_result_calls events) <= length (target_calls events))%nat ∧
  (length (target_calls events) <= 1)%nat ∧
  (∀ id result, (id, result) ∈ set_result_calls events ->
     id = bm_task_id message ∧ registered broker message ∧
     raised (formatter_loads broker message) = false).
Proof.
  unfold handle_message, registered.
  destruct (available_tasks broker !! bm_task_name message) as [task|];
    [|simpl; split; [lia|split; [lia|by intros ?? ?%elem_of_nil]]].
  destruct (formatter_loads broker message) as [decoded|e];
    [|simpl; split; [lia|split; [lia|by intros ?? ?%elem_of_nil]]].
  destruct (run_pre_execute (middlewares broker) decoded) as [taskiq_msg|e];
    [|simpl; split; [lia|split; [lia|by intros ?? ?%elem_of_nil]]].
  pose proof (run_task_events (original_func task)
                (task_signatures !! bm_task_name message) taskiq_msg
                (log_collector_format cli_args) (Some (middlewares broker)))
    as [Hset Hcall].
  pose proof (run_task_calls_target_once parse_obj_as (original_func task)
                (task_signatures !! bm_task_name message) taskiq_msg
                (log_collector_format cli_args) (Some (middlewares broker))) as Honce.
  destruct (run_task _ _ _ _ _ _) as [[events taskiq_msg'] [result|e]]; simpl in *;
    [|rewrite Hset; simpl; split; [lia|split; [done|by intros ?? ?%elem_of_nil]]].
  destruct (Honce _ _ _ eq_refl) as [Hcalls _].
  destruct (run_post_execute _ _ _);
    [|simpl; rewrite Hset; simpl; split; [lia|split; [done|by intros ?? ?%elem_of_nil]]].
  assert (Hgoal : ∀ tail, set_result_calls tail = [] -> target_calls tail = [] ->
    let all := events ++ [Call_set_result (bm_task_id message) result] ++ tail in
    (length (set_result_calls all) <= length (target_calls all))%nat ∧
    (length (target_calls all) <= 1)%nat ∧
    (∀ id r, (id, r) ∈ set_result_calls all ->
       id = bm_task_id message ∧ is_Some (Some task) ∧ false = false)).
  { intros tail Htail_set Htail_call all. subst all.
    unfold set_result_calls, target_calls in *.
    rewrite !omap_app, Hset, Hcalls, Htail_set, Htail_call. simpl.
    split; [lia|]. split; [lia|].
    intros id r Hin. apply list_elem_of_singleton in Hin as [= -> ->]. eauto. }
  destruct (result_backend_set_result _ _ _); simpl.
  - apply (Hgoal []); done.
  - rewrite <- app_assoc. apply (Hgoal [Exception_cannot_set_result e]); done.
Qed.

End LoopMore.

(** X11.  The loop handles the messages of a stream in order and stops
    at the first one whose handling does not end normally: when every
    message lets the loop go on, the events of the run are those of the
    messages, one after the other, and the loop ends normally; when the
    handling of [message] is the first not to end normally, the run
    consists of the events of the messages before it and of its own, it
    ends as that handling did, and no message after it is handled. *)
Theorem listen_loop_in_order
    (parse_obj_as : annot -> value -> res value) (broker : AsyncBroker)
    (cli_args : TaskiqArgs) (task_signatures : gmap string Signature) :
  let handle := handle_message parse_obj_as broker cli_args task_signatures in
  let loop := listen_loop parse_obj_as broker cli_args task_signatures in
  (∀ stream,
     (∀ m, m ∈ stream -> (handle m).2 = None) ->
     loop stream = (concat ((λ m, (handle m).1) <$> stream), None)) ∧
  (∀ s1 message s2 f,
     (∀ m, m ∈ s1 -> (handle m).2 = None) -> (handle message).2 = Some f ->
     loop (s1 ++ message :: s2)
     = (concat ((λ m, (handle m).1) <$> s1) ++ (handle message).1, Some f)).
Proof.
  intros handle loop. subst handle loop. split.
  - apply listen_loop_all_continue.
  - intros s1 message s2 f. apply listen_loop_stops_at.
Qed.

Lemma listen_loop_in_order_witness :
  let broker :=
    Demo.broker_with {[ "add" := Demo.add_task; "stops" := Demo.stops_task ]}
      Demo.loads [Demo.plain] in
  listen_loop Demo.pydantic broker Demo.cli ∅ [Demo.raw "1" "ghost"; Demo.garbled "2" "add"]
  = ([Warning_task_not_found "ghost";
      Warning_cannot_parse (Demo.garbled "2" "add") (Exc ValueError "cannot decode")],
     None) ∧
  listen_loop Demo.pydantic broker Demo.cli ∅
    [Demo.raw "1" "ghost"; Demo.raw "2" "stops"; Demo.raw "3" "add"]
  = ([Warning_task_not_found "ghost"; Call_target [VStr "2"; VStr "3"] ∅], Some Stall).
Proof.
  intros broker.
  pose proof (listen_loop_in_order Demo.pydantic broker Demo.cli ∅) as [Hall Hstop].
  split.
  - apply (Hall [Demo.raw "1" "ghost"; Demo.garbled "2" "add"]).
    intros m Hm. apply elem_of_cons in Hm as [->|Hm]; [reflexivity|].
    apply list_elem_of_singleton in Hm as ->. reflexivity.
  - apply (Hstop [Demo.raw "1" "ghost"] (Demo.raw "2" "stops") [Demo.raw "3" "add"] Stall);
      [|reflexivity].
    intros m Hm. apply list_elem_of_singleton in Hm as ->. reflexivity.
Defined.

(** X12.  Whatever the hooks, the task functions and the backend do,
    the loop calls the result backend at most once per message of the
    stream, never more often than it called a task function, and only
    under the task id of a message of the stream whose task is registered
    and which decoded. *)
Theorem listen_loop_results_bounded
    (parse_obj_as : annot -> value -> res value) (broker : AsyncBroker)
    (cli_args : TaskiqArgs) (task_signatures : gmap string Signature)
    (stream : list BrokerMessage) :
  let events :=
    (listen_loop parse_obj_as broker cli_args task_signatures stream).1 in
  (length (set_result_calls events) <= length (target_calls events))%nat ∧
  (length (target_calls events) <= length stream)%nat ∧
  (∀ id result, (id, result) ∈ set_result_calls events ->
     ∃ message, message ∈ stream ∧ bm_task_id message = id ∧
       registered broker message ∧
       raised (formatter_loads broker message) = false).
Proof.
  induction stream as [|message rest IH]; simpl.
  { split; [done|]. split; [done|]. by intros ?? ?%elem_of_nil. }
  pose proof (handle_message_calls parse_obj_as broker cli_args task_signatures message)
    as (Hle & Hone & Hreg).
  destruct (handle_message _ _ _ _ message) as [events [e|]]; simpl in *.
  { split; [done|]. split; [lia|].
    intros id result Hin. destruct (Hreg id result Hin) as (-> & ? & ?).
    exists message. repeat split; [by left|done..]. }
  destruct (listen_loop _ _ _ _ rest) as [events' r]. simpl in *.
  destruct IH as (IHle & IHlen & IHreg).
  unfold set_result_calls, target_calls in *.
  rewrite !omap_app, !length_app.
  split; [lia|]. split; [lia|].
  intros id result Hin. apply elem_of_app in Hin as [Hin|Hin].
  - destruct (Hreg id result Hin) as (-> & ? & ?).
    exists message. repeat split; [by left|done..].
  - destruct (IHreg id result Hin) as (m & ? & ? & ? & ?).
    exists m. repeat split; [by right|done..].
Qed.

Lemma listen_loop_results_bounded_witness :
  let broker :=
    Demo.broker_with {[ "add" := Demo.add_task ]} Demo.loads [Demo.plain] in
  let stream := [Demo.raw "1" "ghost"; Demo.garbled "2" "add"; Demo.raw "3" "add"] in
  ∃ message,
    message ∈ stream ∧ bm_task_id message = "3" ∧ registered broker message ∧
    raised (formatter_loads broker message) = false.
Proof.
  intros broker stream.
  destruct (listen_loop_results_bounded Demo.pydantic broker Demo.cli
              (build_task_signatures broker Demo.cli) stream)
    as (_ & _ & Hreg).
  pose (result := {| is_err := false; log := ""; return_value := VInt 5;
                     execution_time := 2%float |}).
  assert (Hcalls :
    set_result_calls
      (listen_loop Demo.pydantic broker Demo.cli
         (build_task_signatures broker Demo.cli) stream).1
    = [("3", result)]) by (vm_compute; reflexivity).
  apply (Hreg "3" result). rewrite Hcalls. left.
Defined.

(** X13.  Messages of tasks that are not registered are transparent:
    taking them out of the stream changes neither the calls of task
    functions, nor the calls of the result backend, nor the way the loop
    ends. *)
Theorem listen_loop_skips_unregistered
    (parse_obj_as : annot -> value -> res value) (broker : AsyncBroker)
    (cli_args : TaskiqArgs) (task_signatures : gmap string Signature)
    (stream : list BrokerMessage) :
  let all := listen_loop parse_obj_as broker cli_args task_signatures stream in
  let known :=
    listen_loop parse_obj_as broker cli_args task_signatures
      (filter (registered broker) stream) in
  target_calls all.1 = target_calls known.1 ∧
  set_result_calls all.1 = set_result_calls known.1 ∧
  all.2 = known.2.
Proof.
  induction stream as [|message rest IH]; simpl; [done|].
  rewrite filter_cons. destruct (decide (registered broker message)) as [Hreg|Hreg].
  - simpl.
    destruct (handle_message _ _ _ _ message) as [events [e|]]; [done|].
    destruct (listen_loop _ _ _ _ rest) as [events1 r1].
    destruct (listen_loop _ _ _ _ (filter _ rest)) as [events2 r2].
    simpl in *. destruct IH as (Hcalls & Hsets & ->).
    unfold set_result_calls, target_calls in *.
    by rewrite !omap_app, Hcalls, Hsets.
  - assert (Hunknown : available_tasks broker !! bm_task_name message = None).
    { unfold registered in Hreg. by apply eq_None_not_Some. }
    assert (Hskip : handle_message parse_obj_as broker cli_args task_signatures message
                    = ([Warning_task_not_found (bm_task_name message)], None))
      by (unfold handle_message; by rewrite Hunknown).
    rewrite Hskip.
    destruct (listen_loop _ _ _ _ rest) as [events1 r1].
    destruct (listen_loop _ _ _ _ (filter _ rest)) as [events2 r2].
    unfold set_result_calls, target_calls in *. simpl in *. exact IH.
Qed.

(** X14.  A result backend that fails does not stop the loop: for a
    message of a registered task that decodes, once the [pre_execute]
    hooks, [run_task] and the [post_execute] hooks have returned, an
    exception of [set_result] is logged as the last event of the
    message, after the one call of [set_result], and the handling ends
    normally, so that the loop goes on to the next message. *)
Theorem set_result_failure_is_logged
    (parse_obj_as : annot -> value -> res value) (broker : AsyncBroker)
    (cli_args : TaskiqArgs) (task_signatures : gmap string Signature)
    (message : BrokerMessage) (task : AsyncTaskiqDecoratedTask)
    (decoded taskiq_msg taskiq_msg' : TaskiqMessage)
    (events : list event) (result : TaskiqResult) (e : exc) :
  available_tasks broker !! bm_task_name message = Some task ->
  formatter_loads broker message = Ret decoded ->
  run_pre_execute (middlewares broker) decoded = Ret taskiq_msg ->
  run_task parse_obj_as (original_func task)
    (task_signatures !! bm_task_name message) taskiq_msg
    (log_collector_format cli_args) (Some (middlewares broker))
  = (events, taskiq_msg', Ret result) ->
  run_post_execute (middlewares broker) taskiq_msg' result = Ret tt ->
  result_backend_set_result broker (bm_task_id message) result = Raise e ->
  handle_message parse_obj_as broker cli_args task_signatures message
  = (events ++ [Call_set_result (bm_task_id message) result;
                Exception_cannot_set_result e], None).
Proof.
  intros Hknown Hloads Hpre Hrun Hpost Hset.
  destruct (handle_message_through parse_obj_as broker cli_args task_signatures
              message task decoded taskiq_msg taskiq_msg' events result
              Hknown Hloads Hpre Hrun Hpost) as [-> _].
  by rewrite Hset.
Qed.

Lemma set_result_failure_is_logged_witness :
  ∃ events result,
    handle_message Demo.pydantic
      (Demo.broker_backend_down {[ "add" := Demo.add_task ]} Demo.loads [Demo.plain])
      Demo.cli ∅ (Demo.raw "7" "add")
    = (events ++ [Call_set_result "7" result;
                  Exception_cannot_set_result
                    (Exc (OtherError "ConnectionError") "backend is down")], None).
Proof.
  eexists _, _.
  exact (set_result_failure_is_logged Demo.pydantic
           (Demo.broker_backend_down {[ "add" := Demo.add_task ]} Demo.loads [Demo.plain])
           Demo.cli ∅ (Demo.raw "7" "add") Demo.add_task _ _ _ _ _ _
           eq_refl eq_refl eq_refl eq_refl eq_refl eq_refl).
Defined.

(** ** Signals *)

Lemma deliver_cons (signum : Z) (signums : list Z) (rt : Runtime) :
  deliver (signum :: signums) rt = _handler signum rt.
Proof.
  unfold deliver. simpl.
  induction signums as [|s rest IH]; simpl; [done|].
  rewrite handler_when_shutting_down by apply handler_sets_flag. exact IH.
Qed.

(** X15.  However many termination signals arrive, only the first one
    acts: delivering a signal and then any further signals leaves the
    worker as the first signal alone left it. *)
Theorem deliver_first_signal_only (signum : Z) (signums : list Z) (rt : Runtime) :
  deliver (signum :: signums) rt = _handler signum rt.
Proof. apply deliver_cons. Qed.

(** X16.  The signal handler only adds: the tasks already on the loop
    and the records already logged are kept, in their order, in front
    of what the handler adds. *)
Theorem deliver_keeps_history (signums : list Z) (rt : Runtime) :
  loop_tasks rt `prefix_of` loop_tasks (deliver signums rt) ∧
  logged rt `prefix_of` logged (deliver signums rt).
Proof.
  destruct signums as [|signum signums]; [done|].
  rewrite deliver_cons.
  unfold _handler. destruct (default false (_is_shutting_down rt)); [done|].
  simpl. split; by apply prefix_app_r.
Qed.

(** X17.  From the first signal on a running worker with an empty loop
    to the end of the process: however many signals follow, the loop
    makes exactly one call of [exit_process], and the status it passes to
    [sys.exit] is 1 if [broker.shutdown()] raised and 0 if it returned. *)
Theorem deliver_exit_status (signum : Z) (signums : list Z) (rt : Runtime)
    (shutdown : res value) (all_tasks : list nat) :
  default false (_is_shutting_down rt) = false ->
  loop_tasks rt = [] ->
  exit_status <$> exit_calls shutdown all_tasks (deliver (signum :: signums) rt)
  = [if raised shutdown then 1 else 0].
Proof.
  intros Hrun Hempty. rewrite deliver_cons.
  unfold _handler, exit_calls. rewrite Hrun, Hempty. simpl.
  by destruct shutdown.
Qed.

Lemma deliver_exit_status_witness :
  exit_status <$> exit_calls (Raise (Exc (OtherError "ConnectionError") "lost")) [1%nat; 2%nat]
                    (deliver [15; 2; 15] Demo.fresh)
  = [1].
Proof.
  apply (deliver_exit_status 15 [2; 15] Demo.fresh); reflexivity.
Defined.

(** ** What the hooks after the call see *)

(** X18.  [parse_params] changes the message in place, so the
    [post_execute] hooks receive the message with the converted
    arguments, not the one [pre_execute] returned: for a registered task
    whose message decodes and whose call yields a result, the handling of
    the message ends as the [post_execute] hooks do on the converted
    message and that result. *)
Theorem post_execute_sees_converted_message
    (parse_obj_as : annot -> value -> res value) (broker : AsyncBroker)
    (cli_args : TaskiqArgs) (task_signatures : gmap string Signature)
    (message : BrokerMessage) (task : AsyncTaskiqDecoratedTask)
    (decoded taskiq_msg taskiq_msg' : TaskiqMessage)
    (events : list event) (result : TaskiqResult) :
  available_tasks broker !! bm_task_name message = Some task ->
  formatter_loads broker message = Ret decoded ->
  run_pre_execute (middlewares broker) decoded = Ret taskiq_msg ->
  run_task parse_obj_as (original_func task)
    (task_signatures !! bm_task_name message) taskiq_msg
    (log_collector_format cli_args) (Some (middlewares broker))
  = (events, taskiq_msg', Ret result) ->
  taskiq_msg' =
    (parse_params parse_obj_as (task_signatures !! bm_task_name message) taskiq_msg).1 ∧
  (handle_message parse_obj_as broker cli_args task_signatures message).2
  = match run_post_execute (middlewares broker) taskiq_msg' result with
    | Ret _ => None
    | Raise e => Some (Exception e)
    end.
Proof.
  intros Hknown Hloads Hpre Hrun. split.
  - exact (run_task_is_message parse_obj_as _ _ _ _ _ _ _ _ Hrun).
  - unfold handle_message. rewrite Hknown, Hloads, Hpre, Hrun.
    destruct (run_post_execute _ _ _); [|done].
    by destruct (result_backend_set_result _ _ _).
Qed.

Lemma post_execute_sees_converted_message_witness :
  let broker :=
    Demo.broker_with {[ "add" := Demo.add_task ]} Demo.loads [Demo.strict_post] in
  (handle_message Demo.pydantic broker Demo.cli
     (build_task_signatures broker Demo.cli) (Demo.raw "1" "add")).2 = None.
Proof.
  intros broker.
  pose proof (post_execute_sees_converted_message Demo.pydantic broker Demo.cli
    (build_task_signatures broker Demo.cli) (Demo.raw "1" "add") Demo.add_task
    _ _ _ _ _ eq_refl eq_refl eq_refl eq_refl) as [_ Hend].
  exact Hend.
Defined.
